(** * Life-Boy: Conway's Game of Life for the Game Boy (src/main.c)

    A shallow embedding of [main.c]: the fixed-width integer arithmetic of
    the cursor controller, the start-up loop that wires the toroidal cell
    graph and loads the battery-backed save, the two-pass generation update,
    and the body of the main loop with its edge-triggered buttons.

    Conventions.
    - C integers are [Z]; a value stored into a [uint8_t] or [int8_t] object
      goes through [uint8] or [int8].  Arithmetic itself happens in [int]
      after the usual integer promotions, so [cursor->x + dx] is an exact
      sum.
    - The arrays [world], [neighbors] and [cell_states] are laid out
      contiguously, [a[x][y]] at offset [x * HEIGHT + y]; they are lists
      read with stdpp's lookup and written with its insert.  A pointer into
      an array is that offset.
    - Cartridge RAM is a map from the offset past 0xA000 to a byte.
    - Calls into the display hardware (tiles, sprites, vsync) do not feed
      back into the program and are left out; the main loop instead logs
      which of its guarded blocks ran, and [reaches_vsync] tells whether a
      pass through the loop body ends in the wait for the display refresh.
    - Indexing [world] with a cursor coordinate off the grid is undefined
      in C.  The lists answer such a read with a default element, so what
      the model then does says nothing about the program: [tick_defined]
      and [run_defined] mark the passes through the loop that stay clear of
      it, and the theorems about passes that may run the A block assume
      them. *)

From Stdlib Require Import ZArith Lia.
From Stdlib.Strings Require Import Byte.
From stdpp Require Import base list functions.

Local Open Scope Z_scope.

(** ** Fixed-width integers *)

Definition uint8 (z : Z) : Z := z mod 256.
Definition int8 (z : Z) : Z := (z + 128) mod 256 - 128.

(** ** Constants of main.c *)

Definition WIDTH : Z := 20.
Definition HEIGHT : Z := 18.
Definition SPRITE_CURSOR : Z := 0.

(** Offsets of the save data in cartridge RAM (0xA000 and 0xA001). *)
Definition SAVED : nat := 0%nat.
Definition SAVED_STATES : nat := 1%nat.

(** Button masks of <gb/gb.h>. *)
Definition J_RIGHT : Z := 0x01.
Definition J_LEFT : Z := 0x02.
Definition J_UP : Z := 0x04.
Definition J_DOWN : Z := 0x08.
Definition J_A : Z := 0x10.
Definition J_B : Z := 0x20.
Definition J_SELECT : Z := 0x40.
Definition J_START : Z := 0x80.

(** ** Data *)

(** A pointer into [world] or [cell_states]: the element offset. *)
Abbreviation ptr := nat.

(** Offset of element [a[x][y]] of an array declared [a[WIDTH][HEIGHT]]. *)
Definition at2 (x y : Z) : ptr := Z.to_nat (x * HEIGHT + y).

Record Cell : Type := mkCell {
  state : ptr;             (* bool *state *)
  neighbors : list ptr     (* struct Cell* neighbors[8] *)
}.

Record Cursor : Type := mkCursor {
  sprite : Z;
  cx : Z;                  (* uint8_t x *)
  cy : Z                   (* uint8_t y *)
}.

#[global] Instance Cell_inhabited : Inhabited Cell := populate (mkCell 0%nat []).
#[global] Instance Cell_eq_dec : EqDecision Cell.
Proof. solve_decision. Defined.

(** Cartridge RAM, by offset from 0xA000. *)
Abbreviation Sram := (nat -> byte).

(** The locals of [main] that live across iterations of its loop, and the
    cartridge RAM.  [neighbor_counts] is the array [neighbors] of [main]
    (the name is taken by the field of [Cell]). *)
Record Machine : Type := mkMachine {
  world : list Cell;         (* Cell world[WIDTH][HEIGHT] *)
  neighbor_counts : list Z;  (* uint8_t neighbors[WIDTH][HEIGHT] *)
  cell_states : list bool;   (* uint8_t cell_states[WIDTH][HEIGHT] *)
  cursor : Cursor;
  running : bool;
  joypadPrev : Z;
  joypadCurr : Z;
  sram : Sram
}.

Definition set_neighbor_counts (m : Machine) (v : list Z) : Machine :=
  mkMachine (world m) v (cell_states m) (cursor m) (running m)
            (joypadPrev m) (joypadCurr m) (sram m).
Definition set_cell_states (m : Machine) (v : list bool) : Machine :=
  mkMachine (world m) (neighbor_counts m) v (cursor m) (running m)
            (joypadPrev m) (joypadCurr m) (sram m).
Definition set_cursor (m : Machine) (v : Cursor) : Machine :=
  mkMachine (world m) (neighbor_counts m) (cell_states m) v (running m)
            (joypadPrev m) (joypadCurr m) (sram m).
Definition set_running (m : Machine) (v : bool) : Machine :=
  mkMachine (world m) (neighbor_counts m) (cell_states m) (cursor m) v
            (joypadPrev m) (joypadCurr m) (sram m).
Definition set_sram (m : Machine) (v : Sram) : Machine :=
  mkMachine (world m) (neighbor_counts m) (cell_states m) (cursor m) (running m)
            (joypadPrev m) (joypadCurr m) v.

(** ** Loops *)

(** [for (i = lo; i < lo + n; i++) body]: the body runs at
    [lo], [lo + 1], ..., [lo + n - 1], in that order. *)
Fixpoint for_loop {S : Type} (lo : Z) (n : nat) (body : Z -> S -> S) (s : S) : S :=
  match n with
  | O => s
  | Datatypes.S k => body (lo + Z.of_nat k) (for_loop lo k body s)
  end.

(** The nest [for (x = 0; x < WIDTH; x++) for (y = 0; y < HEIGHT; y++)]. *)
Definition for_cells {S : Type} (body : Z -> Z -> S -> S) (s : S) : S :=
  for_loop 0 (Z.to_nat WIDTH) (fun x => for_loop 0 (Z.to_nat HEIGHT) (body x)) s.

(** ** cell_neighbors *)

Definition cell_neighbors (w : list Cell) (cs : list bool) (c : Cell) : Z :=
  for_loop 0 8
    (fun i n =>
       let nb : Cell := w !!! (neighbors c !!! Z.to_nat i) in
       let alive : bool := cs !!! state nb in
       uint8 (n + (if alive then 1 else 0)))
    0.

(** ** move_cursor *)

Definition move_cursor (cursor : Cursor) (dx dy : Z) : Cursor :=
  let y1 :=
    if dy =? -1 then
      uint8 (if cy cursor + dy <? HEIGHT then cy cursor + dy else HEIGHT + dy)
    else if dy =? 1 then
      uint8 (if cy cursor + dy <? HEIGHT then cy cursor + dy else 0)
    else cy cursor in
  let x1 :=
    if dx =? -1 then
      uint8 (if cx cursor + dx <? WIDTH then cx cursor + dx else WIDTH + dx)
    else if dx =? 1 then
      uint8 (if cx cursor + dx <? WIDTH then cx cursor + dx else 0)
    else cx cursor in
  mkCursor (sprite cursor) x1 y1.

(** ** Start-up: wiring the cells and loading the save *)

(** Lines 93-98: the index of the neighbouring column (or row), wrapped. *)
Definition wrap (dim v d : Z) : Z :=
  if v + d =? -1 then dim - 1
  else if v + d =? dim then 0
  else int8 (v + d).

(** The [dx], [dy] loops for the cell at [(x, y)]: [nb] is its [neighbors]
    array and the second component the running index [n]. *)
Definition wire_neighbors (x y : Z) (nb : list ptr) : list ptr :=
  fst (for_loop (-1) 3
         (fun dx => for_loop (-1) 3
            (fun dy (st : list ptr * Z) =>
               let (nb, n) := st in
               if negb (dx =? 0) || negb (dy =? 0) then
                 let i := wrap WIDTH x dx in
                 let j := wrap HEIGHT y dy in
                 (<[Z.to_nat n := at2 i j]> nb, int8 (n + 1))
               else (nb, n)))
         (nb, 0)).

(** One iteration of the initialisation nest; [s] is the read pointer into
    the saved states. *)
Definition init_cell (load_saved : bool) (ram : Sram) (x y : Z)
    (st : list Cell * list bool * nat) : list Cell * list bool * nat :=
  let '(w, cs, s) := st in
  let c := w !!! at2 x y in
  let w := <[at2 x y := mkCell (at2 x y) (wire_neighbors x y (neighbors c))]> w in
  let p := state (w !!! at2 x y) in
  if load_saved then (w, <[p := Byte.eqb (ram s) "L"]> cs, Datatypes.S s)
  else (w, <[p := false]> cs, s).

(** [main] up to its loop.  [w0], [n0] and [cs0] are whatever the three
    arrays hold before they are initialised. *)
Definition startup (ram : Sram) (w0 : list Cell) (n0 : list Z) (cs0 : list bool)
    : Machine :=
  let load_saved := Byte.eqb (ram SAVED) "s" in
  let '(w, cs, _) := for_cells (init_cell load_saved ram) (w0, cs0, SAVED_STATES) in
  let c := mkCursor SPRITE_CURSOR (uint8 (WIDTH / 2 - 1)) (uint8 (HEIGHT / 2 - 1)) in
  mkMachine w n0 cs (move_cursor c 0 0) false 0 0 ram.

(** ** One generation (lines 211-227) *)

Definition count_cell (x y : Z) (m : Machine) : Machine :=
  let c := world m !!! at2 x y in
  set_neighbor_counts m
    (<[at2 x y := cell_neighbors (world m) (cell_states m) c]> (neighbor_counts m)).

Definition update_cell (x y : Z) (m : Machine) : Machine :=
  let n := neighbor_counts m !!! at2 x y in
  let p := state (world m !!! at2 x y) in
  if (cell_states m !!! p) && negb (n =? 2) && negb (n =? 3) then
    set_cell_states m (<[p := false]> (cell_states m))
  else if negb (cell_states m !!! p) && (n =? 3) then
    set_cell_states m (<[p := true]> (cell_states m))
  else m.

Definition generation (m : Machine) : Machine :=
  for_cells update_cell (for_cells count_cell m).

(** ** The paused-mode actions *)

(** SELECT: clear every cell. *)
Definition clear (m : Machine) : Machine :=
  for_cells (fun x y m => set_cell_states m (<[at2 x y := false]> (cell_states m))) m.

(** START: write the marker and one byte per cell. *)
Definition save (m : Machine) : Machine :=
  let ram : Sram := <[SAVED := "s"%byte]> (sram m) in
  let '(ram, _) :=
    for_cells
      (fun x y (st : Sram * nat) =>
         let (ram, s) := st in
         let alive : bool := cell_states m !!! at2 x y in
         (<[s := if alive then "L"%byte else "D"%byte]> ram, Datatypes.S s))
      (ram, SAVED_STATES) in
  set_sram m ram.

(** A: flip the cell under the cursor.  With the cursor off the grid (a
    coordinate of 255) line 184 indexes outside [world], which is undefined
    in C; the definition is the program's only with the cursor on the grid
    and [world] initialised. *)
Definition toggle (m : Machine) : Machine :=
  let c := world m !!! at2 (cx (cursor m)) (cy (cursor m)) in
  set_cell_states m (<[state c := negb (cell_states m !!! state c)]> (cell_states m)).

Definition move (dx dy : Z) (m : Machine) : Machine :=
  set_cursor m (move_cursor (cursor m) dx dy).

(** ** The main loop *)

Inductive Button : Type :=
  BtnRight | BtnLeft | BtnUp | BtnDown | BtnA | BtnB | BtnSelect | BtnStart.

Definition mask (b : Button) : Z :=
  match b with
  | BtnRight => J_RIGHT | BtnLeft => J_LEFT | BtnUp => J_UP | BtnDown => J_DOWN
  | BtnA => J_A | BtnB => J_B | BtnSelect => J_SELECT | BtnStart => J_START
  end.

(** What an iteration did: the guarded block of a button ran, or the
    generation pass ran. *)
Inductive Event : Type :=
  | Fired (b : Button)
  | Generation.

#[global] Instance Button_eq_dec : EqDecision Button.
Proof. solve_decision. Defined.
#[global] Instance Event_eq_dec : EqDecision Event.
Proof. solve_decision. Defined.

(** [joypad & mask] as a C truth value. *)
Definition held (b : Button) (joypad : Z) : bool := negb (Z.land joypad (mask b) =? 0).

(** [(joypadCurr & J_X) && !(joypadPrev & J_X)] *)
Definition newly_pressed (m : Machine) (b : Button) : bool :=
  held b (joypadCurr m) && negb (held b (joypadPrev m)).

(** [joypadPrev = joypadCurr; joypadCurr = joypad();] where [joy] is the
    value [joypad()] returns. *)
Definition sample (joy : Z) (m : Machine) : Machine :=
  mkMachine (world m) (neighbor_counts m) (cell_states m) (cursor m) (running m)
            (joypadCurr m) joy (sram m).

Definition Prog : Type := Machine -> Machine * list Event.

Definition then_ (p q : Prog) : Prog :=
  fun m => let (m1, t1) := p m in let (m2, t2) := q m1 in (m2, t1 ++ t2).

Infix ">>" := then_ (at level 62, right associativity).

(** [if ((joypadCurr & J_X) && !(joypadPrev & J_X)) { f }] *)
Definition on_press (b : Button) (f : Machine -> Machine) : Prog :=
  fun m => if newly_pressed m b then (f m, [Fired b]) else (m, []).

Definition paused_actions : Prog :=
  on_press BtnSelect clear >>
  on_press BtnStart save >>
  on_press BtnA toggle >>
  on_press BtnUp (move 0 (-1)) >>
  on_press BtnDown (move 0 1) >>
  on_press BtnLeft (move (-1) 0) >>
  on_press BtnRight (move 1 0).

(** One iteration of [while(1)], given the value [joypad()] returns in it.
    The two [continue]s leave the iteration right after flipping [running]. *)
Definition loop_body (joy : Z) (m : Machine) : Machine * list Event :=
  let m := sample joy m in
  if negb (running m) then
    if newly_pressed m BtnB then (set_running m (negb (running m)), [Fired BtnB])
    else paused_actions m
  else
    if newly_pressed m BtnB then (set_running m (negb (running m)), [Fired BtnB])
    else (generation m, [Generation]).

(** A run of iterations, one [joypad()] value each, with the combined log. *)
Fixpoint run (joys : list Z) (m : Machine) : Machine * list Event :=
  match joys with
  | [] => (m, [])
  | joy :: rest =>
      let (m1, t1) := loop_body joy m in
      let (m2, t2) := run rest m1 in
      (m2, t1 ++ t2)
  end.

(** How often the block of button [b] ran, and how many generation passes. *)
Definition fires (b : Button) (t : list Event) : nat :=
  length (filter (fun e => e = Fired b) t).
Definition generations (t : list Event) : nat :=
  length (filter (fun e => e = Generation) t).

(** Generation passes per iteration over a run. *)
Fixpoint generations_per_tick (joys : list Z) (m : Machine) : list nat :=
  match joys with
  | [] => []
  | joy :: rest =>
      let (m1, t1) := loop_body joy m in
      generations t1 :: generations_per_tick rest m1
  end.

(** The buttons whose blocks follow the B test in paused mode, in the order
    of the source. *)
Definition paused_buttons : list Button :=
  [BtnSelect; BtnStart; BtnA; BtnUp; BtnDown; BtnLeft; BtnRight].

(** The joypad registers and the mode flag, which no action but the B
    blocks touches. *)
Definition same_input (m m' : Machine) : Prop :=
  joypadPrev m' = joypadPrev m /\ joypadCurr m' = joypadCurr m /\
  running m' = running m.

(** The log of the paused-mode blocks: one entry per newly pressed button,
    in the order of the source, all tests seeing the same registers. *)
Definition pressed_log (bs : list Button) (m : Machine) : list Event :=
  flat_map (fun b => if newly_pressed m b then [Fired b] else []) bs.

(** ** Reference definitions

    The objects the specification speaks of, written from its words; the
    theorems below compare the program with them. *)

(** The number of cells, [WIDTH * HEIGHT]. *)
Definition CELLS : nat := Z.to_nat (WIDTH * HEIGHT).

(** The eight offsets [{-1,0,1}^2 \ {(0,0)}]. *)
Definition offsets : list (Z * Z) :=
  [(-1, -1); (-1, 0); (-1, 1); (0, -1); (0, 1); (1, -1); (1, 0); (1, 1)].

(** The cells at [((x+dx) mod WIDTH, (y+dy) mod HEIGHT)]. *)
Definition torus_neighbors (x y : Z) : list ptr :=
  map (fun d : Z * Z => at2 ((x + fst d) mod WIDTH) ((y + snd d) mod HEIGHT)) offsets.

(** The toroidal wiring of the whole grid. *)
Definition torus_cell (k : nat) : Cell :=
  mkCell k (torus_neighbors (Z.of_nat k / HEIGHT) (Z.of_nat k mod HEIGHT)).
Definition torus_world : list Cell := torus_cell <$> seq 0 CELLS.

(** [b] is a neighbour of [a] in the cell graph [w]. *)
Definition neighbor_of (w : list Cell) (a b : ptr) : Prop :=
  exists c, w !! a = Some c /\ b ∈ neighbors c.

(** Live cells among the eight toroidal neighbours of [(x, y)]. *)
Definition live_neighbors (cs : list bool) (x y : Z) : Z :=
  Z.of_nat (length (filter (fun p => cs !! p = Some true) (torus_neighbors x y))).

(** Conway's rule. *)
Definition life_rule (alive : bool) (n : Z) : bool :=
  if alive then (n =? 2) || (n =? 3) else (n =? 3).

(** The simultaneous update of every cell from one generation. *)
Definition simultaneous_step (cs : list bool) : list bool :=
  (fun k => life_rule (cs !!! k)
              (live_neighbors cs (Z.of_nat k / HEIGHT) (Z.of_nat k mod HEIGHT)))
  <$> seq 0 CELLS.

(** What the save holds for the cell at offset [k]: live exactly when the
    marker is ['s'] and the cell's byte is ['L']. *)
Definition saved_live (ram : Sram) (k : nat) : bool :=
  Byte.eqb (ram SAVED) "s" && Byte.eqb (ram (SAVED_STATES + k)%nat) "L".

(** The state of the arrays once [main] has initialised them. *)
Definition wired (m : Machine) : Prop :=
  world m = torus_world /\
  length (cell_states m) = CELLS /\
  length (neighbor_counts m) = CELLS.

(** Everything but the two arrays a generation pass works on. *)
Definition same_control (m m' : Machine) : Prop :=
  world m' = world m /\ cursor m' = cursor m /\ running m' = running m /\
  joypadPrev m' = joypadPrev m /\ joypadCurr m' = joypadCurr m /\
  sram m' = sram m.

(** A check of the cell graph [w], cell by cell: the neighbours of a cell
    are pairwise distinct cells of the grid, none is the cell itself, and
    each has the cell among its own neighbours. *)
Definition graph_ok (w : list Cell) : bool :=
  forallb
    (fun a =>
       let nb := neighbors (w !!! a) in
       bool_decide (NoDup nb) &&
       forallb (fun b => bool_decide (b <> a) && bool_decide (b < CELLS)%nat &&
                         bool_decide (a ∈ neighbors (w !!! b))) nb)
    (seq 0 CELLS).

(** The arrays have their declared sizes (whatever they contain). *)
Definition allocated (w0 : list Cell) (cs0 : list bool) : Prop :=
  length w0 = CELLS /\ length cs0 = CELLS /\
  Forall (fun c => length (neighbors c) = 8%nat) w0.

(** Grid patterns. *)
Definition pattern (live : list (Z * Z)) : list bool :=
  foldr (fun p cs => <[at2 (fst p) (snd p) := true]> cs) (replicate CELLS false) live.

Definition all_dead : list bool := replicate CELLS false.
Definition all_live : list bool := replicate CELLS true.
Definition glider (ax ay : Z) : list bool :=
  pattern [(ax + 1, ay); (ax + 2, ay + 1); (ax, ay + 2); (ax + 1, ay + 2); (ax + 2, ay + 2)].

(** Sample contents for the arrays before initialisation and for the
    cartridge RAM. *)
Definition junk_world : list Cell := replicate CELLS (mkCell 7%nat (replicate 8 500%nat)).
Definition junk_counts : list Z := replicate CELLS 200.
Definition junk_states : list bool := replicate CELLS true.
Definition blank_ram : Sram := fun _ => xff.

(** Cartridge RAM holding a save marker followed by foreign data, and one
    without the marker. *)
Definition foreign_ram : Sram :=
  fun a => if (a =? 0)%nat then "s"%byte
           else if (a mod 3 =? 0)%nat then "L"%byte
           else if (a mod 3 =? 1)%nat then "D"%byte else x00.
Definition unmarked_ram : Sram :=
  fun a => if (a =? 0)%nat then "S"%byte else "L"%byte.

(** A machine fresh from start-up, one with a glider drawn on it, and one
    set running by a press and release of B. *)
Definition fresh_machine : Machine := startup blank_ram junk_world junk_counts junk_states.
Definition glider_machine : Machine := set_cell_states fresh_machine (glider 5 5).
Definition running_machine : Machine := (run [J_B; 0] glider_machine).1.

(** ** Further definitions for the properties of the whole program *)

(** The cursor is on the grid. *)
Definition on_grid (c : Cursor) : Prop :=
  0 <= cx c < WIDTH /\ 0 <= cy c < HEIGHT.

(** The cursor is on the grid or one step past its low edge, where the
    stored coordinate is 255. *)
Definition near_grid (c : Cursor) : Prop :=
  (0 <= cx c < WIDTH \/ cx c = 255) /\ (0 <= cy c < HEIGHT \/ cy c = 255).

(** [on_grid] as a test. *)
Definition on_gridb (c : Cursor) : bool :=
  (0 <=? cx c) && (cx c <? WIDTH) && (0 <=? cy c) && (cy c <? HEIGHT).

(** The pass through the loop body that samples [joy] reaches the A block
    (lines 183-187): the machine is paused, B is not newly pressed and A
    is. *)
Definition toggle_runs (joy : Z) (m : Machine) : bool :=
  negb (running m) && negb (newly_pressed (sample joy m) BtnB)
  && newly_pressed (sample joy m) BtnA.

(** The pass is defined in C: if it reaches the A block, the cursor is on
    the grid.  A run is defined when each of its passes is. *)
Definition tick_defined (joy : Z) (m : Machine) : bool :=
  negb (toggle_runs joy m) || on_gridb (cursor m).

Fixpoint run_defined (joys : list Z) (m : Machine) : bool :=
  match joys with
  | [] => true
  | joy :: rest => tick_defined joy m && run_defined rest (loop_body joy m).1
  end.



(** The paused-mode blocks with every button test read off the machine the
    iteration started with: the actions in the order of the source, each
    under its own test. *)
Definition step_if (c : bool) (f : Machine -> Machine) (m : Machine) : Machine :=
  if c then f m else m.

Definition paused_result (m : Machine) : Machine :=
  let edge := newly_pressed m in
  step_if (edge BtnRight) (move 1 0)
    (step_if (edge BtnLeft) (move (-1) 0)
       (step_if (edge BtnDown) (move 0 1)
          (step_if (edge BtnUp) (move 0 (-1))
             (step_if (edge BtnA) toggle
                (step_if (edge BtnStart) save
                   (step_if (edge BtnSelect) clear m)))))).

(** Patterns drawn on the torus: coordinates wrap. *)
Definition torus_pattern (live : list (Z * Z)) : list bool :=
  foldr (fun p cs => <[at2 (fst p mod WIDTH) (snd p mod HEIGHT) := true]> cs)
        (replicate CELLS false) live.

(** The 2x2 block and the glider with their top-left corner at [(x, y)]. *)
Definition block (x y : Z) : list bool :=
  torus_pattern [(x, y); (x + 1, y); (x, y + 1); (x + 1, y + 1)].
Definition torus_glider (x y : Z) : list bool :=
  torus_pattern [(x + 1, y); (x + 2, y + 1); (x, y + 2); (x + 1, y + 2); (x + 2, y + 2)].

(** The generation [cs] moved by [(a, b)] on the torus: the cell at
    [(x, y)] of the result is the cell at [(x - a, y - b)] of [cs]. *)
Definition translate (a b : Z) (cs : list bool) : list bool :=
  (fun k => cs !!! at2 ((Z.of_nat k / HEIGHT - a) mod WIDTH)
                       ((Z.of_nat k mod HEIGHT - b) mod HEIGHT))
  <$> seq 0 CELLS.

(** The cell a pair of coordinates names on the torus. *)
Definition cell_of (p : Z * Z) : ptr := at2 (fst p mod WIDTH) (snd p mod HEIGHT).

(** Other contents for the arrays before initialisation. *)
Definition junk_world' : list Cell := replicate CELLS (mkCell 3%nat (replicate 8 0%nat)).
Definition junk_states' : list bool := replicate CELLS false.

(** * Proofs *)

(** ** Loop invariants *)

Lemma for_loop_ind {S : Type} (P : nat -> S -> Prop) lo n (body : Z -> S -> S) s :
  P 0%nat s ->
  (forall k s, (k < n)%nat -> P k s -> P (Datatypes.S k) (body (lo + Z.of_nat k) s)) ->
  P n (for_loop lo n body s).
Proof.
  intros H0 Hstep. induction n as [|n IH]; simpl; [exact H0|].
  apply Hstep; [lia|]. apply IH. intros k s' Hk. apply Hstep. lia.
Qed.

Lemma at2_bound x y :
  0 <= x < WIDTH -> 0 <= y < HEIGHT -> (at2 x y < CELLS)%nat.
Proof. unfold at2, CELLS, WIDTH, HEIGHT. lia. Qed.

Lemma at2_coords k :
  (k < CELLS)%nat ->
  0 <= Z.of_nat k / HEIGHT < WIDTH /\ 0 <= Z.of_nat k mod HEIGHT < HEIGHT /\
  at2 (Z.of_nat k / HEIGHT) (Z.of_nat k mod HEIGHT) = k.
Proof.
  unfold at2, CELLS, WIDTH, HEIGHT. intros Hk.
  pose proof (Z.div_mod (Z.of_nat k) 18 ltac:(lia)).
  pose proof (Z.mod_pos_bound (Z.of_nat k) 18 ltac:(lia)). lia.
Qed.

Lemma coords_at2 x y :
  0 <= x < WIDTH -> 0 <= y < HEIGHT ->
  Z.of_nat (at2 x y) / HEIGHT = x /\ Z.of_nat (at2 x y) mod HEIGHT = y.
Proof.
  unfold at2, WIDTH, HEIGHT. intros Hx Hy.
  rewrite Z2Nat.id by lia.
  assert (Hq : (x * 18 + y) / 18 = x).
  { rewrite Z.add_comm, Z.div_add by lia. rewrite Z.div_small by lia. lia. }
  split; [exact Hq|].
  rewrite Z.mod_eq by lia. rewrite Hq. lia.
Qed.

(** The nest visits the cells in the order of their offsets: an invariant
    indexed by the number of cells done is carried through both loops. *)
Lemma for_cells_ind {S : Type} (P : nat -> S -> Prop) (body : Z -> Z -> S -> S) s :
  P 0%nat s ->
  (forall x y s, 0 <= x < WIDTH -> 0 <= y < HEIGHT ->
     P (at2 x y) s -> P (Datatypes.S (at2 x y)) (body x y s)) ->
  P CELLS (for_cells body s).
Proof.
  intros H0 Hstep. unfold for_cells.
  change CELLS with (Z.to_nat WIDTH * Z.to_nat HEIGHT)%nat.
  apply (for_loop_ind (fun kx s => P (kx * Z.to_nat HEIGHT)%nat s)); [exact H0|].
  intros kx s1 Hkx Hs1.
  replace (Datatypes.S kx * Z.to_nat HEIGHT)%nat
    with (kx * Z.to_nat HEIGHT + Z.to_nat HEIGHT)%nat by lia.
  apply (for_loop_ind (fun ky s => P (kx * Z.to_nat HEIGHT + ky)%nat s)).
  - rewrite Nat.add_0_r. exact Hs1.
  - intros ky s2 Hky Hs2.
    assert (Hat : at2 (0 + Z.of_nat kx) (0 + Z.of_nat ky)
                  = (kx * Z.to_nat HEIGHT + ky)%nat)
      by (unfold at2, HEIGHT in *; lia).
    replace (kx * Z.to_nat HEIGHT + Datatypes.S ky)%nat
      with (Datatypes.S (at2 (0 + Z.of_nat kx) (0 + Z.of_nat ky))) by (rewrite Hat; lia).
    apply Hstep; [unfold WIDTH in *; lia | unfold HEIGHT in *; lia |].
    rewrite Hat. exact Hs2.
Qed.

(** ** Start-up *)

Lemma int8_small z : -128 <= z < 128 -> int8 z = z.
Proof. intros Hz. unfold int8. rewrite Z.mod_small by lia. lia. Qed.

Lemma wrap_mod dim v d :
  3 <= dim < 128 -> 0 <= v < dim -> -1 <= d <= 1 -> wrap dim v d = (v + d) mod dim.
Proof.
  intros Hdim Hv Hd. unfold wrap.
  destruct (Z.eqb_spec (v + d) (-1)) as [E1|N1].
  - rewrite E1. apply (Z.mod_unique _ _ (-1)); lia.
  - destruct (Z.eqb_spec (v + d) dim) as [E2|N2].
    + rewrite E2. symmetry. apply Z.mod_same. lia.
    + rewrite int8_small by lia. symmetry. apply Z.mod_small. lia.
Qed.

Lemma wire_neighbors_unroll x y (nb : list ptr) :
  length nb = 8%nat ->
  wire_neighbors x y nb
  = map (fun d : Z * Z => at2 (wrap WIDTH x (fst d)) (wrap HEIGHT y (snd d))) offsets.
Proof.
  intros Hlen. unfold wire_neighbors.
  do 9 (destruct nb as [|? nb]; simpl in Hlen; try discriminate).
  set (f := wrap WIDTH x). set (g := wrap HEIGHT y). clearbody f g.
  generalize at2. intros h. reflexivity.
Qed.

Lemma wire_neighbors_torus x y (nb : list ptr) :
  0 <= x < WIDTH -> 0 <= y < HEIGHT -> length nb = 8%nat ->
  wire_neighbors x y nb = torus_neighbors x y.
Proof.
  intros Hx Hy Hlen. rewrite wire_neighbors_unroll by exact Hlen.
  unfold torus_neighbors. apply map_ext_in. intros [dx dy] Hin. simpl.
  assert (Hd : -1 <= dx <= 1 /\ -1 <= dy <= 1).
  { unfold offsets in Hin. simpl in Hin.
    repeat (destruct Hin as [Hin|Hin]; [inversion Hin; lia|]). try destruct Hin. }
  rewrite !wrap_mod; unfold WIDTH, HEIGHT in *; lia.
Qed.

(** The invariant of the initialisation nest after [k] cells: the first [k]
    cells are wired and loaded, the rest of [world] is as it was, and the
    read pointer has advanced by [k] when a save is being loaded. *)
Lemma init_cells_spec ram (w0 : list Cell) (cs0 : list bool) :
  allocated w0 cs0 ->
  let load_saved := Byte.eqb (ram SAVED) "s" in
  let r := for_cells (init_cell load_saved ram) (w0, cs0, SAVED_STATES) in
  r.1.1 = torus_world /\
  length r.1.2 = CELLS /\
  (forall k, (k < CELLS)%nat -> r.1.2 !! k = Some (saved_live ram k)).
Proof.
  intros (Hw0 & Hcs0 & Hnb) load_saved.
  set (P := fun (k : nat) (st : list Cell * list bool * nat) =>
    length st.1.1 = CELLS /\ length st.1.2 = CELLS /\
    (forall i, (i < k)%nat -> st.1.1 !! i = Some (torus_cell i)) /\
    (forall i, (k <= i)%nat -> st.1.1 !! i = w0 !! i) /\
    (forall i, (i < k)%nat -> st.1.2 !! i = Some (saved_live ram i)) /\
    st.2 = if load_saved then (SAVED_STATES + k)%nat else SAVED_STATES).
  assert (HP : P CELLS (for_cells (init_cell load_saved ram) (w0, cs0, SAVED_STATES))).
  { apply for_cells_ind.
    - unfold P. cbn [fst snd]. repeat split; try done; try (intros; lia).
      destruct load_saved; reflexivity.
    - intros x y [[w cs] s] Hx Hy (Lw & Lcs & Hdone & Hrest & Hst & Hs).
      cbn [fst snd] in Lw, Lcs, Hdone, Hrest, Hst, Hs.
      pose proof (at2_bound x y Hx Hy) as Hk.
      assert (Hcell : mkCell (at2 x y) (torus_neighbors x y) = torus_cell (at2 x y)).
      { unfold torus_cell. destruct (coords_at2 x y Hx Hy) as [-> ->]. reflexivity. }
      unfold init_cell.
      generalize dependent (at2 x y). intros k Hdone Hrest Hst Hs Hk Hcell.
      destruct (lookup_lt_is_Some_2 w0 k ltac:(lia)) as [c0 Hc0].
      assert (Hc : w !!! k = c0).
      { apply list_lookup_total_correct. rewrite Hrest by lia. exact Hc0. }
      assert (Hwire : wire_neighbors x y (neighbors (w !!! k)) = torus_neighbors x y).
      { apply wire_neighbors_torus; try done. rewrite Hc.
        exact (Forall_lookup_1 _ _ _ _ Hnb Hc0). }
      rewrite Hwire, Hcell.
      rewrite list_lookup_total_insert_eq by lia.
      change (state (torus_cell k)) with k.
      assert (Hgoal : forall v s',
        v = saved_live ram k ->
        s' = (if load_saved then (SAVED_STATES + Datatypes.S k)%nat else SAVED_STATES) ->
        P (Datatypes.S k) (<[k := torus_cell k]> w, <[k := v]> cs, s')).
      { intros v s' -> ->. unfold P. cbn [fst snd]. rewrite !length_insert.
        split; [exact Lw|]. split; [exact Lcs|].
        split; [|split; [|split; [|reflexivity]]].
        - intros i Hi. destruct (decide (i = k)) as [->|Hne].
          + apply list_lookup_insert_eq. lia.
          + rewrite list_lookup_insert_ne by done. apply Hdone. lia.
        - intros i Hi. rewrite list_lookup_insert_ne by lia. apply Hrest. lia.
        - intros i Hi. destruct (decide (i = k)) as [->|Hne].
          + apply list_lookup_insert_eq. lia.
          + rewrite list_lookup_insert_ne by done. apply Hst. lia. }
      unfold saved_live in Hgoal. fold load_saved in Hgoal.
      destruct load_saved; apply Hgoal; rewrite ?Hs; reflexivity. }
  intros r. fold r in HP. clearbody r.
  destruct HP as (Lw & Lcs & Hdone & _ & Hst & _).
  split; [|split; [exact Lcs|exact Hst]].
  apply list_eq. intros i. unfold torus_world.
  rewrite list_lookup_fmap.
  destruct (decide (i < CELLS)%nat) as [Hi|Hi].
  - rewrite Hdone by done. rewrite lookup_seq_lt by done. reflexivity.
  - rewrite lookup_seq_ge by lia. apply lookup_ge_None. lia.
Qed.

Lemma startup_spec ram (w0 : list Cell) (n0 : list Z) (cs0 : list bool) :
  allocated w0 cs0 ->
  let m := startup ram w0 n0 cs0 in
  world m = torus_world /\
  length (cell_states m) = CELLS /\
  (forall k, (k < CELLS)%nat -> cell_states m !! k = Some (saved_live ram k)) /\
  neighbor_counts m = n0 /\ sram m = ram /\ running m = false.
Proof.
  intros Halloc. pose proof (init_cells_spec ram w0 cs0 Halloc) as H.
  cbv zeta in H. unfold startup.
  destruct (for_cells _ _) as [[w cs] s]. cbn [fst snd] in H.
  destruct H as (Hw & Hlen & Hcs). cbn [world cell_states neighbor_counts sram running].
  repeat split; assumption.
Qed.

Lemma torus_world_length : length torus_world = CELLS.
Proof. unfold torus_world. rewrite length_fmap. apply length_seq. Qed.

Lemma torus_world_lookup k :
  (k < CELLS)%nat -> torus_world !! k = Some (torus_cell k).
Proof.
  intros Hk. unfold torus_world. rewrite list_lookup_fmap, lookup_seq_lt by done.
  reflexivity.
Qed.

Lemma torus_world_lookup_total k :
  (k < CELLS)%nat -> torus_world !!! k = torus_cell k.
Proof. intros Hk. apply list_lookup_total_correct, torus_world_lookup, Hk. Qed.

Lemma torus_neighbors_bound x y p :
  p ∈ torus_neighbors x y -> (p < CELLS)%nat.
Proof.
  unfold torus_neighbors. rewrite list_elem_of_In, in_map_iff.
  intros ([dx dy] & <- & _). apply at2_bound; apply Z.mod_pos_bound; reflexivity.
Qed.

Lemma torus_neighbors_length x y : length (torus_neighbors x y) = 8%nat.
Proof. reflexivity. Qed.

(** ** The cell graph *)

Lemma graph_ok_torus : graph_ok torus_world = true.
Proof. vm_compute. reflexivity. Qed.

Lemma graph_ok_sound (w : list Cell) a :
  graph_ok w = true -> (a < CELLS)%nat ->
  NoDup (neighbors (w !!! a)) /\
  forall b, b ∈ neighbors (w !!! a) ->
    b <> a /\ (b < CELLS)%nat /\ a ∈ neighbors (w !!! b).
Proof.
  unfold graph_ok. generalize CELLS. intros n H Ha.
  rewrite forallb_forall in H. specialize (H a).
  rewrite <- list_elem_of_In, elem_of_seq in H. specialize (H ltac:(lia)).
  cbv zeta in H.
  apply andb_prop in H as [Hnd Hall]. apply bool_decide_eq_true in Hnd.
  split; [exact Hnd|].
  intros b Hb. rewrite forallb_forall in Hall.
  specialize (Hall b (proj1 (list_elem_of_In _ _) Hb)).
  apply andb_prop in Hall as [Hall H3]. apply andb_prop in Hall as [H1 H2].
  apply bool_decide_eq_true in H1, H2, H3. auto.
Qed.

Lemma junk_allocated : allocated junk_world junk_states.
Proof.
  unfold allocated, junk_world, junk_states. rewrite !length_replicate.
  repeat split. apply Forall_replicate. reflexivity.
Qed.

(** C3.  After start-up, whatever the arrays held before, every cell
    [(x, y)] of the 20x18 grid has exactly eight neighbour references, the
    cells at [((x+dx) mod 20, (y+dy) mod 18)] for the eight offsets
    [(dx, dy)] other than [(0, 0)], each exactly once; the neighbour
    relation is symmetric, and no cell is its own neighbour. *)
Theorem C3_topology ram (w0 : list Cell) (n0 : list Z) (cs0 : list bool) :
  allocated w0 cs0 ->
  let w := world (startup ram w0 n0 cs0) in
  (forall x y, 0 <= x < 20 -> 0 <= y < 18 ->
     exists c, w !! at2 x y = Some c /\
       neighbors c
       = map (fun d : Z * Z => at2 ((x + fst d) mod 20) ((y + snd d) mod 18))
             [(-1, -1); (-1, 0); (-1, 1); (0, -1); (0, 1); (1, -1); (1, 0); (1, 1)] /\
       length (neighbors c) = 8%nat /\
       NoDup (neighbors c)) /\
  (forall a b, neighbor_of w a b -> neighbor_of w b a) /\
  (forall a, ~ neighbor_of w a a).
Proof.
  intros Halloc w.
  destruct (startup_spec ram w0 n0 cs0 Halloc) as (Hw & _). fold w in Hw.
  clearbody w. subst w.
  split; [|split].
  - intros x y Hx Hy. exists (torus_cell (at2 x y)).
    pose proof (at2_bound x y Hx Hy) as Hk.
    split; [apply torus_world_lookup, Hk|].
    assert (Hnb : neighbors (torus_cell (at2 x y)) = torus_neighbors x y).
    { unfold torus_cell. cbn [neighbors].
      destruct (coords_at2 x y Hx Hy) as [-> ->]. reflexivity. }
    split; [rewrite Hnb; reflexivity|]. split; [rewrite Hnb; reflexivity|].
    destruct (graph_ok_sound torus_world (at2 x y) graph_ok_torus Hk) as [Hnd _].
    rewrite torus_world_lookup_total in Hnd by exact Hk. exact Hnd.
  - intros a b (c & Hc & Hb).
    assert (Ha : (a < CELLS)%nat).
    { rewrite <- torus_world_length. eapply lookup_lt_Some, Hc. }
    apply list_lookup_total_correct in Hc. subst c.
    destruct (graph_ok_sound torus_world a graph_ok_torus Ha) as [_ Hall].
    destruct (Hall b Hb) as (_ & Hlt & Hin).
    exists (torus_world !!! b). split; [|exact Hin].
    apply list_lookup_lookup_total_lt. rewrite torus_world_length. exact Hlt.
  - intros a (c & Hc & Hb).
    assert (Ha : (a < CELLS)%nat).
    { rewrite <- torus_world_length. eapply lookup_lt_Some, Hc. }
    apply list_lookup_total_correct in Hc. subst c.
    destruct (graph_ok_sound torus_world a graph_ok_torus Ha) as [_ Hall].
    destruct (Hall a Hb) as (Hne & _). congruence.
Qed.

Lemma C3_topology_witness :
  allocated junk_world junk_states /\
  let w := world (startup blank_ram junk_world junk_counts junk_states) in
  (forall x y, 0 <= x < 20 -> 0 <= y < 18 ->
     exists c, w !! at2 x y = Some c /\
       neighbors c
       = map (fun d : Z * Z => at2 ((x + fst d) mod 20) ((y + snd d) mod 18))
             [(-1, -1); (-1, 0); (-1, 1); (0, -1); (0, 1); (1, -1); (1, 0); (1, 1)] /\
       length (neighbors c) = 8%nat /\
       NoDup (neighbors c)) /\
  (forall a b, neighbor_of w a b -> neighbor_of w b a) /\
  (forall a, ~ neighbor_of w a a).
Proof.
  split; [exact junk_allocated|].
  apply (C3_topology blank_ram junk_world junk_counts junk_states).
  exact junk_allocated.
Defined.

(** ** The generation pass *)

Lemma same_control_refl m : same_control m m.
Proof. unfold same_control. repeat split. Qed.

Lemma same_control_trans m1 m2 m3 :
  same_control m1 m2 -> same_control m2 m3 -> same_control m1 m3.
Proof. unfold same_control. intros (?&?&?&?&?&?) (?&?&?&?&?&?). repeat split; congruence. Qed.

Lemma count_cell_frame x y m :
  same_control m (count_cell x y m) /\ cell_states (count_cell x y m) = cell_states m.
Proof. unfold count_cell, same_control. simpl. repeat split. Qed.

Lemma update_cell_frame x y m :
  same_control m (update_cell x y m) /\
  neighbor_counts (update_cell x y m) = neighbor_counts m.
Proof.
  unfold update_cell, same_control.
  repeat match goal with |- context [if ?b then _ else _] => destruct b end;
    simpl; repeat split.
Qed.

(** The first pass fills the scratch array from a generation it leaves
    untouched. *)
Lemma count_pass_spec m :
  length (neighbor_counts m) = CELLS ->
  let m' := for_cells count_cell m in
  same_control m m' /\ cell_states m' = cell_states m /\
  length (neighbor_counts m') = CELLS /\
  forall k, (k < CELLS)%nat ->
    neighbor_counts m' !! k
    = Some (cell_neighbors (world m) (cell_states m) (world m !!! k)).
Proof.
  intros Hlen.
  set (P := fun (k : nat) (m' : Machine) =>
    same_control m m' /\ cell_states m' = cell_states m /\
    length (neighbor_counts m') = CELLS /\
    forall i, (i < k)%nat ->
      neighbor_counts m' !! i
      = Some (cell_neighbors (world m) (cell_states m) (world m !!! i))).
  assert (HP : P CELLS (for_cells count_cell m)).
  { apply for_cells_ind.
    - unfold P. split; [apply same_control_refl|]. repeat split; try done.
      intros; lia.
    - intros x y m1 Hx Hy (Hsc & Hcs & Hl & Hdone).
      pose proof (at2_bound x y Hx Hy) as Hk.
      destruct (count_cell_frame x y m1) as [Hsc1 Hcs1].
      unfold P. split; [eapply same_control_trans; eassumption|].
      split; [congruence|].
      unfold count_cell. cbn [neighbor_counts set_neighbor_counts].
      rewrite length_insert. split; [exact Hl|].
      destruct Hsc as (Hw & _). rewrite Hw, Hcs.
      intros i Hi. destruct (decide (i = at2 x y)) as [->|Hne].
      + apply list_lookup_insert_eq. lia.
      + rewrite list_lookup_insert_ne by done. apply Hdone. lia. }
  exact HP.
Qed.

(** The branch of lines 222-225 is Conway's rule. *)
Lemma update_rule (alive : bool) n :
  (if alive && negb (n =? 2) && negb (n =? 3) then false
   else if negb alive && (n =? 3) then true else alive)
  = life_rule alive n.
Proof.
  unfold life_rule. destruct alive, (Z.eqb_spec n 2), (Z.eqb_spec n 3); simpl; try reflexivity; lia.
Qed.

(** The second pass rewrites each cell from its own old state and its entry
    of the scratch array, provided each cell's [state] points at its own
    entry of [cell_states]. *)
Lemma update_pass_spec m :
  (forall k, (k < CELLS)%nat -> state (world m !!! k) = k) ->
  length (cell_states m) = CELLS ->
  let m' := for_cells update_cell m in
  same_control m m' /\ neighbor_counts m' = neighbor_counts m /\
  length (cell_states m') = CELLS /\
  forall k, (k < CELLS)%nat ->
    cell_states m' !! k
    = Some (life_rule (cell_states m !!! k) (neighbor_counts m !!! k)).
Proof.
  intros Hst Hlen.
  set (P := fun (k : nat) (m' : Machine) =>
    same_control m m' /\ neighbor_counts m' = neighbor_counts m /\
    length (cell_states m') = CELLS /\
    (forall i, (i < k)%nat ->
       cell_states m' !! i
       = Some (life_rule (cell_states m !!! i) (neighbor_counts m !!! i))) /\
    (forall i, (k <= i)%nat -> cell_states m' !! i = cell_states m !! i)).
  assert (HP : P CELLS (for_cells update_cell m)).
  { apply for_cells_ind.
    - unfold P. split; [apply same_control_refl|]. repeat split; try done.
      intros; lia.
    - intros x y m1 Hx Hy (Hsc & Hn & Hl & Hdone & Hrest).
      pose proof (at2_bound x y Hx Hy) as Hk.
      destruct (update_cell_frame x y m1) as [Hsc1 Hn1].
      unfold P. split; [eapply same_control_trans; eassumption|].
      split; [congruence|].
      assert (Hold : cell_states m1 !!! at2 x y = cell_states m !!! at2 x y).
      { rewrite !list_lookup_total_alt. rewrite Hrest by lia. reflexivity. }
      assert (Hcur : cell_states m1 !! at2 x y = Some (cell_states m !!! at2 x y)).
      { rewrite Hrest by lia. apply list_lookup_lookup_total_lt. lia. }
      assert (Hnew : cell_states (update_cell x y m1)
                     = <[at2 x y := life_rule (cell_states m !!! at2 x y)
                                      (neighbor_counts m !!! at2 x y)]> (cell_states m1)).
      { unfold update_cell. destruct Hsc as (Hw & _). rewrite Hw, Hn, Hst by exact Hk.
        rewrite Hold. rewrite <- update_rule.
        repeat match goal with |- context [if ?b then _ else _] => destruct b end;
          cbn [cell_states set_cell_states]; try reflexivity.
        symmetry. apply list_insert_id. exact Hcur. }
      rewrite Hnew, length_insert. split; [exact Hl|]. split.
      + intros i Hi. destruct (decide (i = at2 x y)) as [->|Hne].
        * apply list_lookup_insert_eq. lia.
        * rewrite list_lookup_insert_ne by done. apply Hdone. lia.
      + intros i Hi. rewrite list_lookup_insert_ne by lia. apply Hrest. lia. }
  destruct HP as (H1 & H2 & H3 & H4 & _). auto.
Qed.

Ltac in_list := repeat first [apply list_elem_of_here | apply list_elem_of_further].

Lemma filter_live_cons (cs : list bool) p (l : list ptr) :
  (p < length cs)%nat ->
  length (filter (fun p => cs !! p = Some true) (p :: l))
  = ((if (cs !!! p : bool) then 1 else 0)
     + length (filter (fun p => cs !! p = Some true) l))%nat.
Proof.
  intros Hp. rewrite filter_cons.
  rewrite (list_lookup_lookup_total_lt cs p Hp).
  destruct (cs !!! p); case_decide; try congruence; reflexivity.
Qed.

(** [cell_neighbors] counts: over a neighbour array of eight in-range
    pointers it returns the number of live cells among them. *)
Lemma cell_neighbors_count (w : list Cell) (cs : list bool) (nb : list ptr) k :
  length nb = 8%nat ->
  (forall p, p ∈ nb -> state (w !!! p) = p /\ (p < length cs)%nat) ->
  cell_neighbors w cs (mkCell k nb)
  = Z.of_nat (length (filter (fun p => cs !! p = Some true) nb)).
Proof.
  intros Hlen Hnb.
  do 9 (destruct nb as [|? nb]; simpl in Hlen; try discriminate).
  unfold cell_neighbors. cbn [for_loop neighbors].
  repeat match goal with
  | |- context [?l !!! Z.to_nat ?e] =>
      let v := eval cbv in (l !!! Z.to_nat e) in
      change (l !!! Z.to_nat e) with v
  end.
  repeat match goal with
  | |- context [state (w !!! ?p)] =>
      rewrite (proj1 (Hnb p ltac:(in_list)))
  end.
  repeat match goal with
  | |- context [filter _ (?p :: _)] =>
      rewrite (filter_live_cons cs p _ (proj2 (Hnb p ltac:(in_list))))
  end.
  rewrite filter_nil.
  repeat match goal with
  | |- context [cs !!! ?p] => destruct (cs !!! p)
  end; reflexivity.
Qed.

Lemma for_cells_frame (body : Z -> Z -> Machine -> Machine) m :
  (forall x y m1, same_control m1 (body x y m1)) ->
  same_control m (for_cells body m).
Proof.
  intros Hbody.
  apply (for_cells_ind (fun _ m' => same_control m m')).
  - apply same_control_refl.
  - intros x y m1 _ _ H. eapply same_control_trans; [exact H|apply Hbody].
Qed.

Lemma generation_frame m : same_control m (generation m).
Proof.
  unfold generation. eapply same_control_trans.
  - apply for_cells_frame. intros x y m1. apply count_cell_frame.
  - apply for_cells_frame. intros x y m1. apply update_cell_frame.
Qed.

Lemma torus_count (cs : list bool) k :
  length cs = CELLS -> (k < CELLS)%nat ->
  cell_neighbors torus_world cs (torus_world !!! k)
  = live_neighbors cs (Z.of_nat k / HEIGHT) (Z.of_nat k mod HEIGHT).
Proof.
  intros Hcs Hk. rewrite torus_world_lookup_total by exact Hk.
  unfold torus_cell, live_neighbors.
  apply cell_neighbors_count; [apply torus_neighbors_length|].
  intros p Hp. apply torus_neighbors_bound in Hp.
  rewrite torus_world_lookup_total by exact Hp. split; [reflexivity|lia].
Qed.

(** One generation on an initialised machine: the scratch array ends up
    holding every cell's live-neighbour count in the old generation, and
    the new generation is the simultaneous update of the old one. *)
Lemma generation_spec m :
  wired m ->
  let m' := generation m in
  wired m' /\
  (forall k, (k < CELLS)%nat ->
     neighbor_counts m' !! k
     = Some (live_neighbors (cell_states m) (Z.of_nat k / HEIGHT) (Z.of_nat k mod HEIGHT))) /\
  cell_states m' = simultaneous_step (cell_states m).
Proof.
  intros (Hw & Hcs & Hn) m'. subst m'. unfold generation.
  destruct (count_pass_spec m Hn) as (Hsc1 & Hcs1 & Hn1 & Hcount).
  set (m1 := for_cells count_cell m) in *. clearbody m1.
  assert (Hw1 : world m1 = torus_world) by (destruct Hsc1 as (-> & _); exact Hw).
  assert (Hst : forall k, (k < CELLS)%nat -> state (world m1 !!! k) = k).
  { intros k Hk. rewrite Hw1, torus_world_lookup_total by exact Hk. reflexivity. }
  destruct (update_pass_spec m1 Hst ltac:(congruence)) as (Hsc2 & Hn2 & Hcs2 & Hupd).
  set (m2 := for_cells update_cell m1) in *. clearbody m2.
  assert (Hcounts : forall k, (k < CELLS)%nat ->
    neighbor_counts m1 !! k
    = Some (live_neighbors (cell_states m) (Z.of_nat k / HEIGHT) (Z.of_nat k mod HEIGHT))).
  { intros k Hk. rewrite Hcount, Hw by exact Hk. f_equal.
    apply torus_count; assumption. }
  split; [|split].
  - unfold wired. destruct Hsc2 as (-> & _). repeat split; congruence.
  - intros k Hk. rewrite Hn2. apply Hcounts, Hk.
  - apply list_eq. intros k. unfold simultaneous_step.
    rewrite list_lookup_fmap.
    destruct (decide (k < CELLS)%nat) as [Hk|Hk].
    + rewrite Hupd, lookup_seq_lt by exact Hk. cbn [fmap option_fmap option_map Nat.add].
      rewrite Hcs1. f_equal. f_equal.
      apply list_lookup_total_correct, Hcounts, Hk.
    + rewrite lookup_seq_ge by lia. apply lookup_ge_None. lia.
Qed.

Lemma glider_machine_wired : wired glider_machine.
Proof. split; [|split]; vm_compute; reflexivity. Qed.

Lemma life_rule_cases (alive : bool) n :
  (alive = true -> n <> 2 -> n <> 3 -> life_rule alive n = false) /\
  (alive = false -> n = 3 -> life_rule alive n = true) /\
  (~ (alive = true /\ n <> 2 /\ n <> 3) -> ~ (alive = false /\ n = 3) ->
   life_rule alive n = alive).
Proof.
  unfold life_rule.
  destruct alive, (Z.eqb_spec n 2), (Z.eqb_spec n 3); simpl;
    repeat split; intros; try reflexivity; try lia; try discriminate; tauto.
Qed.

Lemma generation_cell m x y :
  wired m -> 0 <= x < WIDTH -> 0 <= y < HEIGHT ->
  cell_states m !! at2 x y = Some (cell_states m !!! at2 x y) /\
  cell_states (generation m) !! at2 x y
  = Some (life_rule (cell_states m !!! at2 x y) (live_neighbors (cell_states m) x y)).
Proof.
  intros Hwired Hx Hy. pose proof (at2_bound x y Hx Hy) as Hk.
  destruct (generation_spec m Hwired) as (_ & _ & Hstep).
  destruct Hwired as (_ & Hcs & _).
  split; [apply list_lookup_lookup_total_lt; lia|].
  rewrite Hstep. unfold simultaneous_step.
  rewrite list_lookup_fmap, lookup_seq_lt by exact Hk.
  cbn [fmap option_fmap option_map Nat.add].
  destruct (coords_at2 x y Hx Hy) as [-> ->]. reflexivity.
Qed.

(** C1.  On an initialised machine, one generation maps each cell [(x, y)]
    of the 20x18 grid by Conway's rule, where [n] is the number of its eight
    toroidal neighbours that are live in the current generation: a live
    cell with [n] neither 2 nor 3 dies, a dead cell with [n = 3] comes to
    life, and in every other case the cell keeps its state. *)
Theorem C1_generation_rule m x y :
  wired m -> 0 <= x < 20 -> 0 <= y < 18 ->
  let n := live_neighbors (cell_states m) x y in
  let old := cell_states m !! at2 x y in
  let new := cell_states (generation m) !! at2 x y in
  (old = Some true -> n <> 2 -> n <> 3 -> new = Some false) /\
  (old = Some false -> n = 3 -> new = Some true) /\
  (~ (old = Some true /\ n <> 2 /\ n <> 3) -> ~ (old = Some false /\ n = 3) ->
   new = old).
Proof.
  intros Hwired Hx Hy n old new.
  destruct (generation_cell m x y Hwired Hx Hy) as [Hold Hnew].
  fold old in Hold. fold new n in Hnew. clearbody old new n.
  destruct (life_rule_cases (cell_states m !!! at2 x y) n) as (H1 & H2 & H3).
  rewrite Hold, Hnew. split; [|split].
  - intros [= E] ? ?. rewrite H1; auto.
  - intros [= E] ?. rewrite H2; auto.
  - intros N1 N2. rewrite H3; [reflexivity| |].
    + intros (E & ? & ?). apply N1. rewrite E. auto.
    + intros (E & ?). apply N2. rewrite E. auto.
Qed.

Lemma C1_generation_rule_witness :
  wired glider_machine /\ 0 <= 6 < 20 /\ 0 <= 6 < 18 /\
  let n := live_neighbors (cell_states glider_machine) 6 6 in
  let old := cell_states glider_machine !! at2 6 6 in
  let new := cell_states (generation glider_machine) !! at2 6 6 in
  (old = Some true -> n <> 2 -> n <> 3 -> new = Some false) /\
  (old = Some false -> n = 3 -> new = Some true) /\
  (~ (old = Some true /\ n <> 2 /\ n <> 3) -> ~ (old = Some false /\ n = 3) ->
   new = old).
Proof.
  split; [exact glider_machine_wired|]. split; [lia|]. split; [lia|].
  apply (C1_generation_rule glider_machine 6 6); [exact glider_machine_wired|lia|lia].
Defined.

(** C2.  The generation step works in two passes: after it the scratch
    array holds, for every cell, the count of live neighbours in the
    generation the step started from; the new generation is the
    simultaneous update of that generation; and two machines that start
    from the same generation end in the same one, whatever their scratch
    arrays held. *)
Theorem C2_two_phase m :
  wired m ->
  let m' := generation m in
  (forall x y, 0 <= x < 20 -> 0 <= y < 18 ->
     neighbor_counts m' !! at2 x y = Some (live_neighbors (cell_states m) x y)) /\
  cell_states m' = simultaneous_step (cell_states m) /\
  (forall m2, wired m2 -> cell_states m2 = cell_states m ->
     cell_states (generation m2) = cell_states m').
Proof.
  intros Hwired m'.
  destruct (generation_spec m Hwired) as (_ & Hcount & Hstep). fold m' in Hcount, Hstep.
  split; [|split].
  - intros x y Hx Hy. rewrite Hcount by (apply at2_bound; assumption).
    destruct (coords_at2 x y Hx Hy) as [-> ->]. reflexivity.
  - exact Hstep.
  - intros m2 Hwired2 Heq.
    destruct (generation_spec m2 Hwired2) as (_ & _ & Hstep2).
    rewrite Hstep2, Hstep, Heq. reflexivity.
Qed.

Lemma C2_two_phase_witness :
  wired glider_machine /\
  let m' := generation glider_machine in
  (forall x y, 0 <= x < 20 -> 0 <= y < 18 ->
     neighbor_counts m' !! at2 x y
     = Some (live_neighbors (cell_states glider_machine) x y)) /\
  cell_states m' = simultaneous_step (cell_states glider_machine) /\
  (forall m2, wired m2 -> cell_states m2 = cell_states glider_machine ->
     cell_states (generation m2) = cell_states m').
Proof.
  split; [exact glider_machine_wired|].
  apply (C2_two_phase glider_machine). exact glider_machine_wired.
Defined.

(** C10.  A generation pass writes only the cell states and the scratch
    array: the cursor position, the running flag and every byte of the
    cartridge RAM are as before (and so are the cell graph and the two
    joypad registers). *)
Theorem C10_generation_frame m :
  cx (cursor (generation m)) = cx (cursor m) /\
  cy (cursor (generation m)) = cy (cursor m) /\
  running (generation m) = running m /\
  (forall a, sram (generation m) a = sram m a) /\
  world (generation m) = world m /\
  joypadPrev (generation m) = joypadPrev m /\
  joypadCurr (generation m) = joypadCurr m.
Proof.
  destruct (generation_frame m) as (Hw & Hc & Hr & Hp & Hj & Hs).
  rewrite Hw, Hc, Hr, Hp, Hj, Hs. repeat split.
Qed.

(** ** Saving and loading *)

Lemma byte_eqb_iff (a b : byte) : Byte.eqb a b = true <-> a = b.
Proof. split; [apply Byte.byte_dec_bl|apply Byte.byte_dec_lb]. Qed.

(** The bytes START writes: the marker, then one byte per cell in the
    order of the cells' offsets. *)
Lemma save_spec m :
  let ram := sram (save m) in
  ram SAVED = "s"%byte /\
  (forall k, (k < CELLS)%nat ->
     ram (SAVED_STATES + k)%nat
     = if (cell_states m !!! k : bool) then "L"%byte else "D"%byte) /\
  same_control m (set_sram (save m) (sram m)) /\
  cell_states (save m) = cell_states m.
Proof.
  set (body := fun (x y : Z) (st : Sram * nat) =>
         let (ram, s) := st in
         let alive : bool := cell_states m !!! at2 x y in
         (<[s := if alive then "L"%byte else "D"%byte]> ram, Datatypes.S s)).
  set (P := fun (k : nat) (st : Sram * nat) =>
    st.2 = (SAVED_STATES + k)%nat /\ st.1 SAVED = "s"%byte /\
    forall i, (i < k)%nat ->
      st.1 (SAVED_STATES + i)%nat
      = if (cell_states m !!! i : bool) then "L"%byte else "D"%byte).
  assert (HP : P CELLS (for_cells body (<[SAVED := "s"%byte]> (sram m), SAVED_STATES))).
  { apply for_cells_ind.
    - unfold P. cbn [fst snd]. split; [unfold SAVED_STATES; lia|].
      split; [apply fn_lookup_insert|]. intros; lia.
    - intros x y [ram s] Hx Hy (Hs & Hmark & Hdone). cbn [fst snd] in Hs, Hmark, Hdone.
      unfold P, body. cbn [fst snd]. subst s.
      split; [lia|]. split.
      + rewrite fn_lookup_insert_ne by (unfold SAVED, SAVED_STATES; lia). exact Hmark.
      + intros i Hi. destruct (decide (i = at2 x y)) as [->|Hne].
        * apply fn_lookup_insert.
        * rewrite fn_lookup_insert_ne by lia. apply Hdone. lia. }
  intros ram. subst ram. unfold save. fold body.
  destruct (for_cells body _) as [ram s]. cbn [fst snd] in HP.
  destruct HP as (_ & Hmark & Hdone).
  cbn [sram set_sram cell_states]. split; [exact Hmark|]. split; [exact Hdone|].
  split; [|reflexivity]. unfold same_control. cbn. repeat split.
Qed.

Lemma start_press_saves m :
  running m = false -> held BtnStart (joypadCurr m) = false ->
  loop_body J_START m = (save (sample J_START m), [Fired BtnStart]).
Proof.
  intros Hrun Hprev. unfold loop_body.
  assert (Hr : running (sample J_START m) = false) by exact Hrun.
  rewrite Hr. cbn [negb].
  assert (Hnew : forall b, newly_pressed (sample J_START m) b
                           = match b with BtnStart => true | _ => false end).
  { intros b. unfold newly_pressed. cbn [joypadCurr joypadPrev sample].
    destruct b; try reflexivity. rewrite Hprev. reflexivity. }
  rewrite Hnew. unfold paused_actions, then_, on_press.
  rewrite !Hnew.
  assert (Hsave : forall b, newly_pressed (save (sample J_START m)) b
                            = newly_pressed (sample J_START m) b).
  { intros b. unfold newly_pressed.
    destruct (save_spec (sample J_START m)) as (_ & _ & Hsc & _).
    destruct Hsc as (_ & _ & _ & Hp & Hc & _). cbn [joypadPrev joypadCurr set_sram] in Hp, Hc.
    rewrite Hp, Hc. reflexivity. }
  rewrite !Hsave, !Hnew. reflexivity.
Qed.

(** C6.  Pressing START on a paused machine writes the marker ['s'] at
    offset 0 and then one byte per cell, ['L'] for live and ['D'] for dead,
    the cell [(x, y)] at offset [1 + x * 18 + y]; starting up from the
    resulting cartridge RAM reproduces the saved pattern cell for cell,
    whatever the arrays held before and whatever the pattern (the all-dead
    grid, the all-live grid and the glider among them). *)
Theorem C6_save_load_roundtrip m (w0 : list Cell) (n0 : list Z) (cs0 : list bool) :
  running m = false -> held BtnStart (joypadCurr m) = false ->
  length (cell_states m) = CELLS -> allocated w0 cs0 ->
  let saved := sram (loop_body J_START m).1 in
  saved 0%nat = "s"%byte /\
  (forall x y, 0 <= x < 20 -> 0 <= y < 18 ->
     saved (1 + at2 x y)%nat
     = if (cell_states m !!! at2 x y : bool) then "L"%byte else "D"%byte) /\
  cell_states (startup saved w0 n0 cs0) = cell_states m.
Proof.
  intros Hrun Hprev Hlen Halloc saved. subst saved.
  rewrite start_press_saves by assumption. cbn [fst].
  destruct (save_spec (sample J_START m)) as (Hmark & Hbytes & _ & _).
  cbv zeta in Hmark, Hbytes. cbn [cell_states sample] in Hbytes.
  set (ram := sram (save (sample J_START m))) in *. clearbody ram.
  split; [exact Hmark|]. split.
  - intros x y Hx Hy. apply (Hbytes (at2 x y)). apply at2_bound; assumption.
  - destruct (startup_spec ram w0 n0 cs0 Halloc) as (_ & Hl & Hload & _).
    apply list_eq. intros k.
    destruct (decide (k < CELLS)%nat) as [Hk|Hk].
    + rewrite Hload by exact Hk.
      rewrite (list_lookup_lookup_total_lt (cell_states m) k) by lia.
      f_equal. unfold saved_live. rewrite Hmark, Hbytes by exact Hk.
      destruct (cell_states m !!! k); reflexivity.
    + rewrite !(proj2 (lookup_ge_None _ _)) by lia. reflexivity.
Qed.

Lemma fresh_machine_paused : running fresh_machine = false.
Proof. reflexivity. Qed.

Lemma C6_save_load_roundtrip_witness :
  let dead := set_cell_states fresh_machine all_dead in
  let live := set_cell_states fresh_machine all_live in
  cell_states (startup (sram (loop_body J_START dead).1)
                 junk_world junk_counts junk_states) = all_dead /\
  cell_states (startup (sram (loop_body J_START live).1)
                 junk_world junk_counts junk_states) = all_live /\
  cell_states (startup (sram (loop_body J_START glider_machine).1)
                 junk_world junk_counts junk_states) = glider 5 5.
Proof.
  split; [|split].
  - apply (C6_save_load_roundtrip (set_cell_states fresh_machine all_dead)
             junk_world junk_counts junk_states);
      [reflexivity | reflexivity | vm_compute; reflexivity | exact junk_allocated].
  - apply (C6_save_load_roundtrip (set_cell_states fresh_machine all_live)
             junk_world junk_counts junk_states);
      [reflexivity | reflexivity | vm_compute; reflexivity | exact junk_allocated].
  - apply (C6_save_load_roundtrip glider_machine junk_world junk_counts junk_states);
      [reflexivity | reflexivity | vm_compute; reflexivity | exact junk_allocated].
Defined.

(** C8.  When the marker byte is ['s'], start-up gives every cell a state,
    whatever bytes the store holds: the cell [(x, y)] is live exactly when
    its byte, at offset [1 + x * 18 + y], is ['L'], and dead for any other
    value. *)
Theorem C8_load_total ram (w0 : list Cell) (n0 : list Z) (cs0 : list bool) x y :
  allocated w0 cs0 -> ram 0%nat = "s"%byte -> 0 <= x < 20 -> 0 <= y < 18 ->
  exists alive : bool,
    cell_states (startup ram w0 n0 cs0) !! at2 x y = Some alive /\
    (alive = true <-> ram (1 + at2 x y)%nat = "L"%byte).
Proof.
  intros Halloc Hmark Hx Hy.
  destruct (startup_spec ram w0 n0 cs0 Halloc) as (_ & _ & Hload & _).
  exists (saved_live ram (at2 x y)). split.
  - apply Hload, at2_bound; assumption.
  - unfold saved_live. change SAVED with 0%nat. rewrite Hmark.
    cbn [andb Byte.eqb]. apply byte_eqb_iff.
Qed.

Lemma C8_load_total_witness :
  exists alive : bool,
    cell_states (startup foreign_ram junk_world junk_counts junk_states) !! at2 1 3
    = Some alive /\
    (alive = true <-> foreign_ram (1 + at2 1 3)%nat = "L"%byte).
Proof.
  apply (C8_load_total foreign_ram junk_world junk_counts junk_states 1 3);
    [exact junk_allocated | reflexivity | lia | lia].
Defined.

(** C9.  When the marker byte is anything but ['s'], every cell is dead
    after start-up, whatever the rest of the store holds. *)
Theorem C9_no_save_all_dead ram (w0 : list Cell) (n0 : list Z) (cs0 : list bool) :
  allocated w0 cs0 -> ram 0%nat <> "s"%byte ->
  cell_states (startup ram w0 n0 cs0) = replicate CELLS false /\
  forall x y, 0 <= x < 20 -> 0 <= y < 18 ->
    cell_states (startup ram w0 n0 cs0) !! at2 x y = Some false.
Proof.
  intros Halloc Hmark.
  destruct (startup_spec ram w0 n0 cs0 Halloc) as (_ & Hlen & Hload & _).
  assert (Hdead : forall k, saved_live ram k = false).
  { intros k. unfold saved_live. change SAVED with 0%nat.
    destruct (Byte.eqb (ram 0%nat) "s") eqn:E; [|reflexivity].
    apply byte_eqb_iff in E. contradiction. }
  split.
  - apply list_eq. intros k.
    destruct (decide (k < CELLS)%nat) as [Hk|Hk].
    + rewrite Hload, Hdead by exact Hk. symmetry. apply lookup_replicate_2, Hk.
    + rewrite (proj2 (lookup_ge_None _ _)) by lia.
      symmetry. apply lookup_replicate_None. lia.
  - intros x y Hx Hy. rewrite Hload by (apply at2_bound; assumption).
    rewrite Hdead. reflexivity.
Qed.

Lemma C9_no_save_all_dead_witness :
  cell_states (startup unmarked_ram junk_world junk_counts junk_states)
  = replicate CELLS false /\
  forall x y, 0 <= x < 20 -> 0 <= y < 18 ->
    cell_states (startup unmarked_ram junk_world junk_counts junk_states) !! at2 x y
    = Some false.
Proof.
  apply (C9_no_save_all_dead unmarked_ram junk_world junk_counts junk_states);
    [exact junk_allocated | discriminate].
Defined.

(** ** The cursor *)

Lemma uint8_small z : 0 <= z < 256 -> uint8 z = z.
Proof. intros Hz. unfold uint8. apply Z.mod_small. lia. Qed.

(** Away from the left and top edges [move_cursor] is addition modulo the
    grid size. *)
Lemma move_cursor_wraps c dx dy :
  0 <= cx c < WIDTH -> 0 <= cy c < HEIGHT ->
  -1 <= dx <= 1 -> -1 <= dy <= 1 ->
  (dx = -1 -> 1 <= cx c) -> (dy = -1 -> 1 <= cy c) ->
  cx (move_cursor c dx dy) = (cx c + dx) mod WIDTH /\
  cy (move_cursor c dx dy) = (cy c + dy) mod HEIGHT.
Proof.
  unfold WIDTH, HEIGHT. intros Hx Hy Hdx Hdy Hl Ht.
  unfold move_cursor, WIDTH, HEIGHT. cbn [cx cy]. split.
  - destruct (Z.eqb_spec dx (-1)) as [->|N1]; [|destruct (Z.eqb_spec dx 1) as [->|N2]].
    + destruct (Z.ltb_spec (cx c + -1) 20); [|lia].
      rewrite uint8_small by lia. symmetry. apply Z.mod_small. lia.
    + destruct (Z.ltb_spec (cx c + 1) 20).
      * rewrite uint8_small by lia. symmetry. apply Z.mod_small. lia.
      * replace (cx c + 1) with 20 by lia. reflexivity.
    + replace dx with 0 by lia. rewrite Z.add_0_r. symmetry. apply Z.mod_small. lia.
  - destruct (Z.eqb_spec dy (-1)) as [->|N1]; [|destruct (Z.eqb_spec dy 1) as [->|N2]].
    + destruct (Z.ltb_spec (cy c + -1) 18); [|lia].
      rewrite uint8_small by lia. symmetry. apply Z.mod_small. lia.
    + destruct (Z.ltb_spec (cy c + 1) 18).
      * rewrite uint8_small by lia. symmetry. apply Z.mod_small. lia.
      * replace (cy c + 1) with 18 by lia. reflexivity.
    + replace dy with 0 by lia. rewrite Z.add_0_r. symmetry. apply Z.mod_small. lia.
Qed.

(** C4, on the code.  Moving left from [x = 0] stores 255 in [x], and
    moving up from [y = 0] stores 255 in [y]: the sum [x + dx] is
    computed in [int], so [-1 < WIDTH] holds and the wrapping branch
    [WIDTH + dx] is not taken.  Nine presses of UP from the start position
    reach that state. *)
Theorem C4_move_cursor_low_edge :
  move_cursor (mkCursor 0 0 8) (-1) 0 = mkCursor 0 255 8 /\
  move_cursor (mkCursor 0 9 0) 0 (-1) = mkCursor 0 9 255 /\
  (0 + -1) mod WIDTH = 19 /\ (0 + -1) mod HEIGHT = 17 /\
  cursor (run [J_UP; 0; J_UP; 0; J_UP; 0; J_UP; 0; J_UP; 0; J_UP; 0;
               J_UP; 0; J_UP; 0; J_UP] fresh_machine).1
  = mkCursor 0 9 255.
Proof. split; [|split; [|split; [|split]]]; vm_compute; reflexivity. Qed.

(** ** The main loop *)

Lemma same_control_input m m' : same_control m m' -> same_input m m'.
Proof. unfold same_control, same_input. tauto. Qed.

Lemma same_input_trans m1 m2 m3 :
  same_input m1 m2 -> same_input m2 m3 -> same_input m1 m3.
Proof. unfold same_input. intros (?&?&?) (?&?&?). repeat split; congruence. Qed.

Lemma same_input_pressed m m' b :
  same_input m m' -> newly_pressed m' b = newly_pressed m b.
Proof. intros (Hp & Hc & _). unfold newly_pressed. rewrite Hp, Hc. reflexivity. Qed.

Lemma clear_input m : same_input m (clear m).
Proof.
  apply same_control_input. unfold clear. apply for_cells_frame.
  intros x y m1. unfold same_control. cbn. repeat split.
Qed.

Lemma save_input m : same_input m (save m).
Proof.
  destruct (save_spec m) as (_ & _ & Hsc & _).
  apply same_control_input in Hsc. exact Hsc.
Qed.

Lemma toggle_input m : same_input m (toggle m).
Proof. unfold same_input, toggle. cbn. repeat split. Qed.

Lemma move_input dx dy m : same_input m (move dx dy m).
Proof. unfold same_input, move. cbn. repeat split. Qed.

Lemma generation_input m : same_input m (generation m).
Proof. apply same_control_input, generation_frame. Qed.

(** A guarded block logs its button exactly when the button is newly
    pressed, and leaves the registers alone. *)
Lemma on_press_spec b (f : Machine -> Machine) m :
  (forall m1, same_input m1 (f m1)) ->
  same_input m (on_press b f m).1 /\
  (on_press b f m).2 = if newly_pressed m b then [Fired b] else [].
Proof.
  intros Hf. unfold on_press. destruct (newly_pressed m b); cbn [fst snd].
  - split; [apply Hf|reflexivity].
  - split; [|reflexivity]. unfold same_input. repeat split.
Qed.

Lemma then_spec (p q : Prog) m (t1 : Machine -> list Event) (t2 : Machine -> list Event) :
  (forall m1, same_input m1 (p m1).1 /\ (p m1).2 = t1 m1) ->
  (forall m1, same_input m1 (q m1).1 /\ (q m1).2 = t2 m1) ->
  (forall m1 m2, same_input m1 m2 -> t2 m2 = t2 m1) ->
  same_input m ((p >> q) m).1 /\ ((p >> q) m).2 = t1 m ++ t2 m.
Proof.
  intros Hp Hq Ht. unfold then_.
  destruct (Hp m) as [Hp1 Hp2]. destruct (p m) as [m1 tr1]. cbn [fst snd] in *.
  destruct (Hq m1) as [Hq1 Hq2]. destruct (q m1) as [m2 tr2]. cbn [fst snd] in *.
  split; [eapply same_input_trans; eassumption|].
  rewrite Hp2, Hq2, (Ht m m1 Hp1). reflexivity.
Qed.

Lemma pressed_log_input bs m1 m2 :
  same_input m1 m2 -> pressed_log bs m2 = pressed_log bs m1.
Proof.
  intros H. unfold pressed_log. apply flat_map_ext. intros b.
  rewrite (same_input_pressed m1 m2 b H). reflexivity.
Qed.

Lemma on_press_log b f m :
  (forall m1, same_input m1 (f m1)) ->
  same_input m (on_press b f m).1 /\ (on_press b f m).2 = pressed_log [b] m.
Proof.
  intros Hf. destruct (on_press_spec b f m Hf) as [H1 H2]. split; [exact H1|].
  rewrite H2. unfold pressed_log. cbn [flat_map]. rewrite app_nil_r. reflexivity.
Qed.

Lemma paused_actions_spec m :
  same_input m (paused_actions m).1 /\
  (paused_actions m).2 = pressed_log paused_buttons m.
Proof.
  unfold paused_actions, paused_buttons.
  repeat (
    match goal with
    | |- context [then_ (on_press ?b ?f) ?q ?m1] =>
        match goal with
        | |- context [pressed_log (b :: ?bs) m1] =>
            change (pressed_log (b :: bs) m1)
              with ((fun m2 => if newly_pressed m2 b then [Fired b] else []) m1
                    ++ pressed_log bs m1);
            apply (then_spec (on_press b f) q m1
                     (fun m2 => if newly_pressed m2 b then [Fired b] else [])
                     (pressed_log bs));
            [ intros m2; apply on_press_spec
            | clear m1; intros m1
            | apply pressed_log_input ]
        end
    end;
    [ first [ exact clear_input | exact save_input | exact toggle_input
            | exact (move_input _ _) ]
    | ]).
  apply on_press_log. exact (move_input _ _).
Qed.

Lemma fires_app b t1 t2 : fires b (t1 ++ t2) = (fires b t1 + fires b t2)%nat.
Proof. unfold fires. rewrite list.filter_app, length_app. reflexivity. Qed.

Lemma generations_app t1 t2 :
  generations (t1 ++ t2) = (generations t1 + generations t2)%nat.
Proof. unfold generations. rewrite list.filter_app, length_app. reflexivity. Qed.

Lemma generations_pressed_log bs m : generations (pressed_log bs m) = 0%nat.
Proof.
  induction bs as [|b bs IH]; [reflexivity|].
  change (pressed_log (b :: bs) m)
    with ((if newly_pressed m b then [Fired b] else []) ++ pressed_log bs m).
  rewrite generations_app, IH. destruct (newly_pressed m b); reflexivity.
Qed.

Lemma fires_pressed_log b m :
  fires b (pressed_log paused_buttons m)
  = if newly_pressed m b then (if decide (b = BtnB) then 0%nat else 1%nat) else 0%nat.
Proof.
  unfold pressed_log, paused_buttons. cbn [flat_map]. rewrite !fires_app.
  destruct b;
    repeat match goal with
    | |- context [newly_pressed m ?b'] => destruct (newly_pressed m b')
    end; reflexivity.
Qed.

Ltac by_edge :=
  match goal with
  | |- context [newly_pressed ?m ?b] => destruct (newly_pressed m b); reflexivity
  end.

(** What one iteration does to the registers and the mode flag, and what it
    logs. *)
Lemma loop_body_spec joy m :
  let r := loop_body joy m in
  let edge := newly_pressed (sample joy m) in
  joypadCurr r.1 = joy /\ joypadPrev r.1 = joypadCurr m /\
  running r.1 = (if edge BtnB then negb (running m) else running m) /\
  (forall b, fires b r.2
     = if edge b then
         if decide (b = BtnB) then 1%nat
         else if running m then 0%nat
         else if edge BtnB then 0%nat else 1%nat
       else 0%nat) /\
  generations r.2 = (if running m && negb (edge BtnB) then 1%nat else 0%nat).
Proof.
  intros r edge. subst r edge. unfold loop_body.
  set (m1 := sample joy m).
  assert (Hrun : running m1 = running m) by reflexivity.
  assert (Hc : joypadCurr m1 = joy) by reflexivity.
  assert (Hp : joypadPrev m1 = joypadCurr m) by reflexivity.
  clearbody m1. rewrite Hrun.
  destruct (running m) eqn:Er; cbn [negb andb];
    destruct (newly_pressed m1 BtnB) eqn:Eb; cbn [fst snd negb].
  - rewrite ?Er. repeat split; try assumption.
    intros b. destruct b; try rewrite Eb; try reflexivity; by_edge.
  - destruct (generation_input m1) as (Hp' & Hc' & Hr').
    repeat split; try congruence.
    intros b. destruct b; try rewrite Eb; try reflexivity; by_edge.
  - rewrite ?Er. repeat split; try assumption.
    intros b. destruct b; try rewrite Eb; try reflexivity; by_edge.
  - destruct (paused_actions_spec m1) as ((Hp' & Hc' & Hr') & Hlog).
    rewrite Hlog. repeat split; try congruence.
    + intros b. rewrite fires_pressed_log.
      destruct b; try rewrite Eb; try reflexivity; by_edge.
    + apply generations_pressed_log.
Qed.

Lemma newly_pressed_sample joy m b :
  newly_pressed (sample joy m) b = held b joy && negb (held b (joypadCurr m)).
Proof. reflexivity. Qed.

(** While a button stays down its block does not run. *)
Lemma held_run_silent b joys : forall m,
  held b (joypadCurr m) = true ->
  Forall (fun joy => held b joy = true) joys ->
  fires b (run joys m).2 = 0%nat.
Proof.
  induction joys as [|joy joys IH]; intros m Hm Hall; [reflexivity|].
  inversion Hall as [|? ? Hjoy Hall']; subst. cbn [run].
  destruct (loop_body_spec joy m) as (Hc & _ & _ & Hf & _). cbv zeta in Hf.
  specialize (Hf b). rewrite newly_pressed_sample, Hm, andb_false_r in Hf.
  destruct (loop_body joy m) as [m1 t1]. cbn [fst snd] in Hc, Hf.
  specialize (IH m1 ltac:(rewrite Hc; exact Hjoy) Hall').
  destruct (run joys m1) as [m2 t2]. cbn [fst snd] in IH |- *.
  rewrite fires_app, Hf, IH. reflexivity.
Qed.

(** C5, as the code has it.  On an initialised machine, over passes
    through the loop that are defined (the A block only ever runs with the
    cursor on the grid), take a run of ticks during which a button is held,
    after a tick on which it was not.  Its block never runs on the ticks
    after the first.  On the first tick the block of B always runs, once;
    the block of any other button runs, once, exactly when the machine is
    paused and B is not newly pressed on that same tick.  So every block
    runs at most once per run. *)
Theorem C5_edge_trigger b m joy joys :
  wired m -> run_defined (joy :: joys) m = true ->
  held b (joypadCurr m) = false -> held b joy = true ->
  Forall (fun j => held b j = true) joys ->
  let first := loop_body joy m in
  fires b first.2
  = (if decide (b = BtnB) then 1%nat
     else if running m then 0%nat
     else if newly_pressed (sample joy m) BtnB then 0%nat else 1%nat) /\
  fires b (run joys first.1).2 = 0%nat /\
  fires b (run (joy :: joys) m).2 = fires b first.2.
Proof.
  intros _ _ Hprev Hjoy Hall first. subst first.
  destruct (loop_body_spec joy m) as (Hc & _ & _ & Hf & _). cbv zeta in Hf.
  specialize (Hf b). rewrite (newly_pressed_sample joy m b), Hjoy, Hprev in Hf.
  cbn [andb negb] in Hf.
  assert (Hrest : fires b (run joys (loop_body joy m).1).2 = 0%nat).
  { apply held_run_silent; [rewrite Hc; exact Hjoy|exact Hall]. }
  split; [exact Hf|]. split; [exact Hrest|].
  cbn [run]. destruct (loop_body joy m) as [m1 t1]. cbn [fst snd] in Hrest |- *.
  destruct (run joys m1) as [m2 t2]. cbn [fst snd] in Hrest |- *.
  rewrite fires_app, Hrest. lia.
Qed.

Lemma C5_edge_trigger_witness :
  let first := loop_body J_A glider_machine in
  fires BtnA first.2 = 1%nat /\
  fires BtnA (run [J_A; J_A + J_UP] first.1).2 = 0%nat /\
  fires BtnA (run [J_A; J_A; J_A + J_UP] glider_machine).2 = fires BtnA first.2.
Proof.
  apply (C5_edge_trigger BtnA glider_machine J_A [J_A; J_A + J_UP]);
    [ exact glider_machine_wired | vm_compute; reflexivity
    | reflexivity | reflexivity | repeat constructor ].
Defined.

(** C5 as stated fails: on a paused, initialised machine with the cursor
    on the grid, A and B are pressed together after a tick on which both
    were up, and A is held for three ticks.  The B block flips the mode and
    leaves the first pass before A is tested, the machine then runs, and
    the A block runs on none of the three ticks. *)
Lemma C5_counterexample :
  ~ (wired glider_machine ->
     run_defined [J_A + J_B; J_A + J_B; J_A] glider_machine = true ->
     held BtnA (joypadCurr glider_machine) = false ->
     Forall (fun j => held BtnA j = true) [J_A + J_B; J_A + J_B; J_A] ->
     fires BtnA (run [J_A + J_B; J_A + J_B; J_A] glider_machine).2 = 1%nat).
Proof.
  intros H.
  assert (E : fires BtnA (run [J_A + J_B; J_A + J_B; J_A] glider_machine).2 = 0%nat)
    by (vm_compute; reflexivity).
  rewrite H in E;
    [ discriminate | exact glider_machine_wired | vm_compute; reflexivity
    | vm_compute; reflexivity | repeat constructor ].
Qed.




Lemma running_machine_running : running running_machine = true.
Proof. vm_compute. reflexivity. Qed.

Lemma running_machine_wired : wired running_machine.
Proof. split; [|split]; vm_compute; reflexivity. Qed.



(** * Further properties of the program *)

(** ** cell_neighbors and move_cursor *)

(** X1.  [cell_neighbors] returns a count between 0 and 8 for every cell,
    cell graph and generation: its [uint8_t] accumulator never wraps. *)
Theorem cell_neighbors_range (w : list Cell) (cs : list bool) (c : Cell) :
  0 <= cell_neighbors w cs c <= 8.
Proof.
  unfold cell_neighbors.
  apply (for_loop_ind (fun k n => 0 <= n <= Z.of_nat k)); [lia|].
  intros k n Hk Hn. cbv zeta.
  destruct (cs !!! state (w !!! (neighbors c !!! Z.to_nat (0 + Z.of_nat k))));
    rewrite uint8_small; lia.
Qed.

(** X2.  From a position on the grid, a move by [dx], [dy] in [{-1,0,1}]
    that does not step left from column 0 or up from row 0 lands on the
    grid, at [(x + dx) mod 20] and [(y + dy) mod 18]; in particular moving
    right from column 19 gives column 0 and moving down from row 17 gives
    row 0. *)
Theorem move_cursor_on_grid c dx dy :
  on_grid c -> -1 <= dx <= 1 -> -1 <= dy <= 1 ->
  (dx = -1 -> 1 <= cx c) -> (dy = -1 -> 1 <= cy c) ->
  on_grid (move_cursor c dx dy) /\
  cx (move_cursor c dx dy) = (cx c + dx) mod 20 /\
  cy (move_cursor c dx dy) = (cy c + dy) mod 18.
Proof.
  intros [Hx Hy] Hdx Hdy Hl Ht.
  destruct (move_cursor_wraps c dx dy Hx Hy Hdx Hdy Hl Ht) as [Ex Ey].
  split; [|split; assumption].
  unfold on_grid. rewrite Ex, Ey.
  split; apply Z.mod_pos_bound; reflexivity.
Qed.

Lemma move_cursor_on_grid_witness :
  on_grid (move_cursor (mkCursor 0 19 17) 1 1) /\
  cx (move_cursor (mkCursor 0 19 17) 1 1) = (19 + 1) mod 20 /\
  cy (move_cursor (mkCursor 0 19 17) 1 1) = (17 + 1) mod 18.
Proof.
  apply (move_cursor_on_grid (mkCursor 0 19 17) 1 1);
    unfold on_grid, WIDTH, HEIGHT; cbn [cx cy]; lia.
Defined.

Ltac cursor_cases :=
  repeat match goal with
  | |- context [Z.eqb ?a ?b] => destruct (Z.eqb_spec a b)
  | |- context [Z.ltb ?a ?b] => destruct (Z.ltb_spec a b)
  end.

(** One coordinate of [move_cursor], for a delta in [{-1,0,1}]. *)
Lemma move_axis_near dim v d :
  3 <= dim < 255 -> (0 <= v < dim \/ v = 255) -> -1 <= d <= 1 ->
  let v' := if d =? -1 then uint8 (if v + d <? dim then v + d else dim + d)
            else if d =? 1 then uint8 (if v + d <? dim then v + d else 0)
            else v in
  (0 <= v' < dim \/ v' = 255) /\
  (v = 255 -> d = -1 -> v' = dim - 1) /\
  (v = 255 -> d = 1 -> v' = 0) /\
  (v = 0 -> d = -1 -> v' = 255) /\
  (1 <= v < dim -> d = -1 -> v' = v - 1).
Proof.
  intros Hdim Hv Hd v'. subst v'. unfold uint8.
  cursor_cases; repeat split; intros; Z.div_mod_to_equations; lia.
Qed.

(** X3.  The positions on the grid together with the coordinate value 255
    are closed under every move: a coordinate never takes any other value.
    From 255 a step back (-1) lands on the last column or row and a step
    forward (+1) on column or row 0; a step left from column 0 or up from
    row 0 gives 255.  The sprite number never changes. *)
Theorem move_cursor_near_grid c dx dy :
  near_grid c -> -1 <= dx <= 1 -> -1 <= dy <= 1 ->
  let c' := move_cursor c dx dy in
  near_grid c' /\ sprite c' = sprite c /\
  (cx c = 255 -> dx = -1 -> cx c' = 19) /\ (cx c = 255 -> dx = 1 -> cx c' = 0) /\
  (cy c = 255 -> dy = -1 -> cy c' = 17) /\ (cy c = 255 -> dy = 1 -> cy c' = 0) /\
  (cx c = 0 -> dx = -1 -> cx c' = 255) /\ (cy c = 0 -> dy = -1 -> cy c' = 255).
Proof.
  intros [Hx Hy] Hdx Hdy c'. subst c'. unfold near_grid, move_cursor. cbn [cx cy sprite].
  pose proof (move_axis_near WIDTH (cx c) dx ltac:(unfold WIDTH; lia) Hx Hdx) as Ax.
  pose proof (move_axis_near HEIGHT (cy c) dy ltac:(unfold HEIGHT; lia) Hy Hdy) as Ay.
  cbv zeta in Ax, Ay.
  destruct Ax as (Ax1 & Ax2 & Ax3 & Ax4 & _), Ay as (Ay1 & Ay2 & Ay3 & Ay4 & _).
  change (WIDTH - 1) with 19 in Ax2. change (HEIGHT - 1) with 17 in Ay2.
  repeat split; assumption.
Qed.

Lemma move_cursor_near_grid_witness :
  let c' := move_cursor (mkCursor 0 255 0) (-1) (-1) in
  near_grid c' /\ sprite c' = 0 /\
  (255 = 255 -> -1 = -1 -> cx c' = 19) /\ (255 = 255 -> -1 = 1 -> cx c' = 0) /\
  (0 = 255 -> -1 = -1 -> cy c' = 17) /\ (0 = 255 -> -1 = 1 -> cy c' = 0) /\
  (255 = 0 -> -1 = -1 -> cx c' = 255) /\ (0 = 0 -> -1 = -1 -> cy c' = 255).
Proof.
  apply (move_cursor_near_grid (mkCursor 0 255 0) (-1) (-1));
    [unfold near_grid, WIDTH, HEIGHT; cbn [cx cy]; lia | lia | lia].
Defined.

(** X4.  From every position on the grid, a step left followed by a step
    right, and a step up followed by a step down, returns the cursor to
    where it was, also across the edge (0, then 255, then 0 again). *)
Theorem move_cursor_back_and_forth c :
  on_grid c ->
  move_cursor (move_cursor c (-1) 0) 1 0 = c /\
  move_cursor (move_cursor c 0 (-1)) 0 1 = c.
Proof.
  destruct c as [s x y]. unfold on_grid, WIDTH, HEIGHT. cbn [cx cy].
  intros [Hx Hy].
  assert (Hax : forall dim v, 3 <= dim < 255 -> 0 <= v < dim ->
    uint8 (if uint8 (if v + -1 <? dim then v + -1 else dim + -1) + 1 <? dim
           then uint8 (if v + -1 <? dim then v + -1 else dim + -1) + 1 else 0) = v).
  { intros dim v Hdim Hv.
    pose proof (move_axis_near dim v (-1) Hdim (or_introl Hv) ltac:(lia)) as A.
    cbv zeta in A. change (-1 =? -1) with true in A. cbv iota in A.
    destruct A as (_ & _ & _ & A0 & A1).
    destruct (Z.eq_dec v 0) as [->|Hne].
    - rewrite A0 by reflexivity.
      destruct (Z.ltb_spec (255 + 1) dim); [lia|reflexivity].
    - rewrite A1 by lia.
      destruct (Z.ltb_spec (v - 1 + 1) dim); [|lia]. rewrite uint8_small; lia. }
  unfold move_cursor, WIDTH, HEIGHT. cbn [cx cy sprite].
  change (-1 =? -1) with true. change (0 =? -1) with false.
  change (0 =? 1) with false. change (1 =? -1) with false. change (1 =? 1) with true.
  cbv iota. rewrite (Hax 20 x), (Hax 18 y) by lia. split; reflexivity.
Qed.

Lemma move_cursor_back_and_forth_witness :
  move_cursor (move_cursor (mkCursor 0 0 0) (-1) 0) 1 0 = mkCursor 0 0 0 /\
  move_cursor (move_cursor (mkCursor 0 0 0) 0 (-1)) 0 1 = mkCursor 0 0 0.
Proof.
  apply (move_cursor_back_and_forth (mkCursor 0 0 0)).
  unfold on_grid, WIDTH, HEIGHT; cbn [cx cy]; lia.
Defined.

(** ** Start-up *)

Lemma junk_allocated' : allocated junk_world' junk_states'.
Proof.
  unfold allocated, junk_world', junk_states'. rewrite !length_replicate.
  repeat split. apply Forall_replicate. reflexivity.
Qed.

(** X5.  What start-up leaves in [world] and [cell_states] does not depend
    on what the two arrays held before: every entry is overwritten. *)
Theorem startup_overwrites ram (w0 w0' : list Cell) (n0 n0' : list Z)
    (cs0 cs0' : list bool) :
  allocated w0 cs0 -> allocated w0' cs0' ->
  world (startup ram w0 n0 cs0) = world (startup ram w0' n0' cs0') /\
  cell_states (startup ram w0 n0 cs0) = cell_states (startup ram w0' n0' cs0').
Proof.
  intros H H'.
  destruct (startup_spec ram w0 n0 cs0 H) as (Hw & Hl & Hc & _).
  destruct (startup_spec ram w0' n0' cs0' H') as (Hw' & Hl' & Hc' & _).
  split; [congruence|].
  apply list_eq. intros k. destruct (decide (k < CELLS)%nat) as [Hk|Hk].
  - rewrite Hc, Hc' by exact Hk. reflexivity.
  - rewrite !(proj2 (lookup_ge_None _ _)) by lia. reflexivity.
Qed.

Lemma startup_overwrites_witness :
  world (startup foreign_ram junk_world junk_counts junk_states)
  = world (startup foreign_ram junk_world' [] junk_states') /\
  cell_states (startup foreign_ram junk_world junk_counts junk_states)
  = cell_states (startup foreign_ram junk_world' [] junk_states').
Proof.
  apply (startup_overwrites foreign_ram junk_world junk_world' junk_counts []
           junk_states junk_states');
    [exact junk_allocated | exact junk_allocated'].
Defined.

(** X6.  [main] enters its loop paused, with both joypad registers 0, the
    cursor on the grid at column 9, row 8, the cartridge RAM as it found
    it, and the arrays initialised. *)
Theorem startup_ready ram (w0 : list Cell) (n0 : list Z) (cs0 : list bool) :
  allocated w0 cs0 -> length n0 = CELLS ->
  let m := startup ram w0 n0 cs0 in
  wired m /\ on_grid (cursor m) /\ cx (cursor m) = 9 /\ cy (cursor m) = 8 /\
  running m = false /\ joypadPrev m = 0 /\ joypadCurr m = 0 /\
  (forall a, sram m a = ram a).
Proof.
  intros Halloc Hn m.
  destruct (startup_spec ram w0 n0 cs0 Halloc) as (Hw & Hl & _ & Hn0 & _).
  fold m in Hw, Hl, Hn0.
  assert (Hcur : cursor m = mkCursor 0 9 8).
  { subst m. unfold startup. destruct (for_cells _ _) as [[w cs] s]. reflexivity. }
  assert (Hrest : running m = false /\ joypadPrev m = 0 /\ joypadCurr m = 0 /\
                  (forall a, sram m a = ram a)).
  { subst m. unfold startup. destruct (for_cells _ _) as [[w cs] s].
    cbn [running joypadPrev joypadCurr sram]. repeat split. }
  clearbody m. rewrite Hcur. cbn [cx cy].
  split; [unfold wired; rewrite Hn0; auto|].
  split; [unfold on_grid, WIDTH, HEIGHT; cbn [cx cy]; lia|].
  split; [reflexivity|]. split; [reflexivity|]. exact Hrest.
Qed.

Lemma startup_ready_witness :
  let m := startup foreign_ram junk_world junk_counts junk_states in
  wired m /\ on_grid (cursor m) /\ cx (cursor m) = 9 /\ cy (cursor m) = 8 /\
  running m = false /\ joypadPrev m = 0 /\ joypadCurr m = 0 /\
  (forall a, sram m a = foreign_ram a).
Proof.
  apply (startup_ready foreign_ram junk_world junk_counts junk_states);
    [exact junk_allocated | apply length_replicate].
Defined.

(** A machine fresh from start-up stays initialised when a pattern of the
    right size is drawn on it. *)
Lemma fresh_machine_drawn (cs : list bool) :
  length cs = CELLS -> wired (set_cell_states fresh_machine cs).
Proof.
  intros Hlen.
  destruct (startup_ready blank_ram junk_world junk_counts junk_states
              junk_allocated (length_replicate _ _)) as ((Hw & _ & Hn) & _).
  unfold wired. cbn [world cell_states neighbor_counts set_cell_states].
  auto.
Qed.


(** ** Saving *)

Lemma save_only_sram m : save m = set_sram m (sram (save m)).
Proof. unfold save. destruct (for_cells _ _) as [ram s]. reflexivity. Qed.

(** X7.  START writes the 361 bytes at offsets 0 to 360 and nothing else:
    every byte of the cartridge RAM past them is as before, and so is the
    rest of the machine. *)
Theorem save_bounded m :
  (forall a, (CELLS < a)%nat -> sram (save m) a = sram m a) /\
  world (save m) = world m /\ cell_states (save m) = cell_states m /\
  neighbor_counts (save m) = neighbor_counts m /\ cursor (save m) = cursor m /\
  running (save m) = running m.
Proof.
  split; [|rewrite save_only_sram; cbn; repeat split].
  set (body := fun (x y : Z) (st : Sram * nat) =>
         let (ram, s) := st in
         let alive : bool := cell_states m !!! at2 x y in
         (<[s := if alive then "L"%byte else "D"%byte]> ram, Datatypes.S s)).
  set (P := fun (k : nat) (st : Sram * nat) =>
    st.2 = (SAVED_STATES + k)%nat /\
    forall a, (SAVED_STATES + k <= a)%nat -> st.1 a = sram m a).
  assert (HP : P CELLS (for_cells body (<[SAVED := "s"%byte]> (sram m), SAVED_STATES))).
  { apply for_cells_ind.
    - unfold P. cbn [fst snd]. split; [unfold SAVED_STATES; lia|].
      intros a Ha. apply fn_lookup_insert_ne. unfold SAVED, SAVED_STATES in *. lia.
    - intros x y [ram s] Hx Hy (Hs & Hrest). cbn [fst snd] in Hs, Hrest.
      unfold P, body. cbn [fst snd]. subst s. split; [lia|].
      intros a Ha. rewrite fn_lookup_insert_ne by lia. apply Hrest. lia. }
  unfold save. fold body. destruct (for_cells body _) as [ram s].
  cbn [fst snd] in HP. destruct HP as [_ Hrest]. cbn [sram set_sram].
  intros a Ha. apply Hrest. unfold SAVED_STATES. lia.
Qed.

(** X8.  Loading and saving again normalises the store: after start-up
    followed by START the marker is ['s'] and the byte of each cell is
    ['L'] if the cell loaded as live and ['D'] otherwise.  A store with the
    marker whose 360 cell bytes are each ['L'] or ['D'] is written back
    byte for byte. *)
Theorem load_then_save ram (w0 : list Cell) (n0 : list Z) (cs0 : list bool) :
  allocated w0 cs0 ->
  let ram' := sram (save (startup ram w0 n0 cs0)) in
  ram' 0%nat = "s"%byte /\
  (forall k, (k < CELLS)%nat ->
     ram' (1 + k)%nat = if saved_live ram k then "L"%byte else "D"%byte) /\
  (ram 0%nat = "s"%byte ->
   (forall k, (k < CELLS)%nat -> ram (1 + k)%nat = "L"%byte \/ ram (1 + k)%nat = "D"%byte) ->
   forall a, ram' a = ram a).
Proof.
  intros Halloc ram'.
  destruct (startup_spec ram w0 n0 cs0 Halloc) as (_ & Hl & Hload & _ & Hram & _).
  destruct (save_spec (startup ram w0 n0 cs0)) as (Hmark & Hbytes & _).
  destruct (save_bounded (startup ram w0 n0 cs0)) as (Hfar & _).
  cbv zeta in Hmark, Hbytes. fold ram' in Hmark, Hbytes, Hfar.
  set (m := startup ram w0 n0 cs0) in *. clearbody ram' m.
  assert (Hcells : forall k, (k < CELLS)%nat ->
    ram' (1 + k)%nat = if saved_live ram k then "L"%byte else "D"%byte).
  { intros k Hk. change (1 + k)%nat with (SAVED_STATES + k)%nat.
    rewrite Hbytes by exact Hk.
    rewrite (list_lookup_total_correct _ _ _ (Hload k Hk)). reflexivity. }
  split; [exact Hmark|]. split; [exact Hcells|].
  intros Hs Hwf a.
  destruct (decide (a = 0)%nat) as [->|Hne]; [rewrite Hs; exact Hmark|].
  destruct (decide (CELLS < a)%nat) as [Hfara|Hnear].
  - rewrite Hfar by exact Hfara. rewrite Hram. reflexivity.
  - replace a with (1 + (a - 1))%nat by lia.
    rewrite Hcells by lia. unfold saved_live. change SAVED with 0%nat.
    rewrite Hs. change (SAVED_STATES + (a - 1))%nat with (1 + (a - 1))%nat.
    destruct (Hwf (a - 1)%nat ltac:(lia)) as [-> | ->]; reflexivity.
Qed.

Lemma load_then_save_witness :
  let ram' := sram (save (startup foreign_ram junk_world junk_counts junk_states)) in
  ram' 0%nat = "s"%byte /\
  (forall k, (k < CELLS)%nat ->
     ram' (1 + k)%nat = if saved_live foreign_ram k then "L"%byte else "D"%byte) /\
  (foreign_ram 0%nat = "s"%byte ->
   (forall k, (k < CELLS)%nat ->
      foreign_ram (1 + k)%nat = "L"%byte \/ foreign_ram (1 + k)%nat = "D"%byte) ->
   forall a, ram' a = foreign_ram a).
Proof.
  apply (load_then_save foreign_ram junk_world junk_counts junk_states).
  exact junk_allocated.
Defined.

(** ** The paused-mode actions *)

Lemma machine_eq m m' :
  world m' = world m -> neighbor_counts m' = neighbor_counts m ->
  cell_states m' = cell_states m -> cursor m' = cursor m ->
  running m' = running m -> joypadPrev m' = joypadPrev m ->
  joypadCurr m' = joypadCurr m -> sram m' = sram m -> m' = m.
Proof. destruct m, m'. cbn. intros. subst. reflexivity. Qed.

(** SELECT on arrays of the declared size: every cell dead, nothing else
    touched. *)
Lemma clear_spec m :
  length (cell_states m) = CELLS ->
  clear m = set_cell_states m (replicate CELLS false).
Proof.
  intros Hlen.
  set (body := fun (x y : Z) (m1 : Machine) =>
         set_cell_states m1 (<[at2 x y := false]> (cell_states m1))).
  set (P := fun (k : nat) (m' : Machine) =>
    same_control m m' /\ neighbor_counts m' = neighbor_counts m /\
    length (cell_states m') = CELLS /\
    forall i, (i < k)%nat -> cell_states m' !! i = Some false).
  assert (HP : P CELLS (for_cells body m)).
  { apply for_cells_ind.
    - unfold P. split; [apply same_control_refl|]. repeat split; try done. intros; lia.
    - intros x y m1 Hx Hy (Hsc & Hn & Hl & Hdone).
      pose proof (at2_bound x y Hx Hy) as Hk.
      unfold P, body. cbn [cell_states neighbor_counts set_cell_states].
      rewrite length_insert. split; [|split; [exact Hn|split; [exact Hl|]]].
      + eapply same_control_trans; [exact Hsc|]. unfold same_control. cbn. repeat split.
      + intros i Hi. destruct (decide (i = at2 x y)) as [->|Hne].
        * apply list_lookup_insert_eq. lia.
        * rewrite list_lookup_insert_ne by done. apply Hdone. lia. }
  unfold clear. fold body.
  destruct HP as ((Hw & Hc & Hr & Hp & Hj & Hs) & Hn & Hl & Hdone).
  apply machine_eq; cbn [world neighbor_counts cell_states cursor running
                         joypadPrev joypadCurr sram set_cell_states]; try assumption.
  apply list_eq. intros i. destruct (decide (i < CELLS)%nat) as [Hi|Hi].
  - rewrite Hdone by exact Hi. symmetry. apply lookup_replicate_2, Hi.
  - rewrite (proj2 (lookup_ge_None _ _)) by lia. symmetry.
    apply lookup_replicate_None. lia.
Qed.

Lemma same_input_refl m : same_input m m.
Proof. unfold same_input. repeat split. Qed.

Lemma on_press_fst b f m0 m :
  same_input m0 m -> (on_press b f m).1 = step_if (newly_pressed m0 b) f m.
Proof.
  intros H. unfold on_press, step_if. rewrite (same_input_pressed m0 m b H).
  destruct (newly_pressed m0 b); reflexivity.
Qed.

Lemma on_press_then_fst b f (q : Prog) m0 m :
  (forall m1, same_input m1 (f m1)) -> same_input m0 m ->
  ((on_press b f >> q) m).1 = (q (step_if (newly_pressed m0 b) f m)).1 /\
  same_input m0 (step_if (newly_pressed m0 b) f m).
Proof.
  intros Hf H. unfold then_. rewrite <- (on_press_fst b f m0 m H).
  destruct (on_press_spec b f m Hf) as [Hs _].
  destruct (on_press b f m) as [m1 t1]. cbn [fst snd] in *.
  destruct (q m1) as [m2 t2]. cbn [fst].
  split; [reflexivity|]. eapply same_input_trans; eassumption.
Qed.

(** The machine the paused-mode blocks leave: every test can be read off
    the machine the iteration started with. *)
Lemma paused_actions_result m : (paused_actions m).1 = paused_result m.
Proof.
  unfold paused_actions, paused_result. cbv zeta.
  pose proof (same_input_refl m) as S.
  repeat match goal with
  | S : same_input m ?m1 |- (then_ (on_press ?b ?f) ?q ?m1).1 = _ =>
      let E := fresh "E" in
      let S' := fresh "S" in
      destruct (on_press_then_fst b f q m m1
                  ltac:(first [ exact clear_input | exact save_input
                              | exact toggle_input | exact (move_input _ _) ]) S)
        as [E S'];
      rewrite E; clear E S
  end.
  match goal with
  | S : same_input m ?m1 |- _ => rewrite (on_press_fst BtnRight (move 1 0) m m1 S)
  end.
  reflexivity.
Qed.

(** The machine one iteration leaves. *)
Lemma loop_body_result joy m :
  (loop_body joy m).1
  = let m1 := sample joy m in
    if newly_pressed m1 BtnB then set_running m1 (negb (running m1))
    else if running m1 then generation m1 else paused_result m1.
Proof.
  unfold loop_body. cbv zeta.
  destruct (running (sample joy m)); cbn [negb];
    destruct (newly_pressed (sample joy m) BtnB); try reflexivity.
  apply paused_actions_result.
Qed.

Lemma clear_control m : same_control m (clear m).
Proof.
  unfold clear. apply for_cells_frame.
  intros x y m1. unfold same_control. cbn. repeat split.
Qed.

Lemma clear_sram m : sram (clear m) = sram m.
Proof. apply (clear_control m). Qed.
Lemma clear_cursor m : cursor (clear m) = cursor m.
Proof. apply (clear_control m). Qed.
Lemma clear_world m : world (clear m) = world m.
Proof. apply (clear_control m). Qed.
Lemma save_cursor m : cursor (save m) = cursor m.
Proof. apply (save_bounded m). Qed.
Lemma save_world m : world (save m) = world m.
Proof. apply (save_bounded m). Qed.
Lemma save_cell_states m : cell_states (save m) = cell_states m.
Proof. apply (save_bounded m). Qed.
Lemma save_neighbor_counts m : neighbor_counts (save m) = neighbor_counts m.
Proof. apply (save_bounded m). Qed.

Ltac paused_cases :=
  unfold paused_result, step_if; cbv zeta;
  repeat match goal with
  | H : newly_pressed ?m ?b = _ |- context [newly_pressed ?m ?b] => rewrite H
  end;
  repeat match goal with
  | |- context [newly_pressed ?m ?b] => destruct (newly_pressed m b)
  end.

Lemma move_world dx dy m : world (move dx dy m) = world m.
Proof. reflexivity. Qed.
Lemma move_neighbor_counts dx dy m : neighbor_counts (move dx dy m) = neighbor_counts m.
Proof. reflexivity. Qed.
Lemma move_cell_states dx dy m : cell_states (move dx dy m) = cell_states m.
Proof. reflexivity. Qed.
Lemma move_sram dx dy m : sram (move dx dy m) = sram m.
Proof. reflexivity. Qed.
Lemma move_cursor_field dx dy m : cursor (move dx dy m) = move_cursor (cursor m) dx dy.
Proof. reflexivity. Qed.
Lemma toggle_world m : world (toggle m) = world m.
Proof. reflexivity. Qed.
Lemma toggle_neighbor_counts m : neighbor_counts (toggle m) = neighbor_counts m.
Proof. reflexivity. Qed.
Lemma toggle_sram m : sram (toggle m) = sram m.
Proof. reflexivity. Qed.
Lemma toggle_cursor m : cursor (toggle m) = cursor m.
Proof. reflexivity. Qed.

Create Rewrite HintDb machine_fields.
#[local] Hint Rewrite
  move_world move_neighbor_counts move_cell_states move_sram move_cursor_field
  toggle_world toggle_neighbor_counts toggle_sram toggle_cursor
  clear_sram clear_cursor clear_world
  save_cursor save_world save_cell_states save_neighbor_counts : machine_fields.

Ltac fields := autorewrite with machine_fields.

(** X9.  The cartridge RAM is written only by a START press in paused
    mode: a defined iteration of an initialised machine that is running, or
    in which B is newly pressed, or in which START is not newly pressed,
    leaves every byte as it was. *)
Theorem sram_written_only_by_start joy m :
  wired m -> tick_defined joy m = true ->
  running m = true \/ newly_pressed (sample joy m) BtnB = true \/
  newly_pressed (sample joy m) BtnStart = false ->
  sram (loop_body joy m).1 = sram m.
Proof.
  intros _ _ H. rewrite loop_body_result. cbv zeta.
  change (running (sample joy m)) with (running m).
  change (sram m) with (sram (sample joy m)).
  set (m1 := sample joy m) in *. clearbody m1.
  destruct (newly_pressed m1 BtnB) eqn:Eb; [reflexivity|].
  destruct (running m) eqn:Er; [apply (generation_frame m1)|].
  destruct H as [H|[H|H]]; try discriminate.
  paused_cases; fields; reflexivity.
Qed.

Lemma sram_written_only_by_start_witness :
  sram (loop_body (J_SELECT + J_A + J_UP) glider_machine).1 = sram glider_machine.
Proof.
  apply (sram_written_only_by_start (J_SELECT + J_A + J_UP) glider_machine);
    [exact glider_machine_wired | vm_compute; reflexivity |].
  right. right. reflexivity.
Defined.

(** X10.  In paused mode the cells change only by SELECT or A: an
    iteration of a paused machine in which neither is newly pressed leaves
    [cell_states] and the scratch array as they were, whatever else is
    pressed. *)
Theorem cells_change_only_by_select_or_a joy m :
  running m = false ->
  newly_pressed (sample joy m) BtnSelect = false ->
  newly_pressed (sample joy m) BtnA = false ->
  cell_states (loop_body joy m).1 = cell_states m /\
  neighbor_counts (loop_body joy m).1 = neighbor_counts m.
Proof.
  intros Hr Hs Ha. rewrite loop_body_result. cbv zeta.
  change (running (sample joy m)) with (running m). rewrite Hr.
  change (cell_states m) with (cell_states (sample joy m)).
  change (neighbor_counts m) with (neighbor_counts (sample joy m)).
  set (m1 := sample joy m) in *. clearbody m1.
  destruct (newly_pressed m1 BtnB) eqn:Eb; [split; reflexivity|].
  paused_cases; fields; split; reflexivity.
Qed.

Lemma cells_change_only_by_select_or_a_witness :
  cell_states (loop_body (J_START + J_LEFT + J_DOWN) glider_machine).1
  = cell_states glider_machine /\
  neighbor_counts (loop_body (J_START + J_LEFT + J_DOWN) glider_machine).1
  = neighbor_counts glider_machine.
Proof.
  apply (cells_change_only_by_select_or_a (J_START + J_LEFT + J_DOWN) glider_machine);
    reflexivity.
Defined.

(** X11.  The cursor moves only by a direction press in paused mode: a
    defined iteration of an initialised machine that is running, or in
    which B is newly pressed, or in which no direction button is newly
    pressed, leaves the cursor where it was. *)
Theorem cursor_moves_only_by_directions joy m :
  wired m -> tick_defined joy m = true ->
  running m = true \/ newly_pressed (sample joy m) BtnB = true \/
  (newly_pressed (sample joy m) BtnUp = false /\
   newly_pressed (sample joy m) BtnDown = false /\
   newly_pressed (sample joy m) BtnLeft = false /\
   newly_pressed (sample joy m) BtnRight = false) ->
  cursor (loop_body joy m).1 = cursor m.
Proof.
  intros _ _ H. rewrite loop_body_result. cbv zeta.
  change (running (sample joy m)) with (running m).
  change (cursor m) with (cursor (sample joy m)).
  set (m1 := sample joy m) in *. clearbody m1.
  destruct (newly_pressed m1 BtnB) eqn:Eb; [reflexivity|].
  destruct (running m) eqn:Er; [apply (generation_frame m1)|].
  destruct H as [H|[H|(Hu & Hd & Hl & Hrt)]]; try discriminate.
  paused_cases; fields; reflexivity.
Qed.

Lemma cursor_moves_only_by_directions_witness :
  cursor (loop_body (J_SELECT + J_START + J_A) glider_machine).1
  = cursor glider_machine.
Proof.
  apply (cursor_moves_only_by_directions (J_SELECT + J_START + J_A) glider_machine);
    [exact glider_machine_wired | vm_compute; reflexivity |].
  right. right. repeat split.
Defined.

(** X12.  SELECT clears the grid: after an iteration of a paused machine in
    which SELECT is newly pressed, and neither B nor A is, every cell is
    dead, whatever else is pressed. *)
Theorem select_clears joy m :
  running m = false -> length (cell_states m) = CELLS ->
  newly_pressed (sample joy m) BtnSelect = true ->
  newly_pressed (sample joy m) BtnB = false ->
  newly_pressed (sample joy m) BtnA = false ->
  cell_states (loop_body joy m).1 = replicate CELLS false.
Proof.
  intros Hr Hlen Hs Hb Ha. rewrite loop_body_result. cbv zeta.
  change (running (sample joy m)) with (running m). rewrite Hr, Hb.
  change (cell_states m) with (cell_states (sample joy m)) in Hlen.
  set (m1 := sample joy m) in *. clearbody m1.
  paused_cases; fields; rewrite (clear_spec m1 Hlen); reflexivity.
Qed.

Lemma select_clears_witness :
  cell_states (loop_body (J_SELECT + J_START + J_RIGHT) glider_machine).1
  = replicate CELLS false.
Proof.
  apply (select_clears (J_SELECT + J_START + J_RIGHT) glider_machine);
    [reflexivity | vm_compute; reflexivity | reflexivity | reflexivity | reflexivity].
Defined.

(** X13.  SELECT and START pressed together save the cleared grid: the
    clear block runs before the save block, so after such a defined
    iteration of a paused, initialised machine the store holds the marker
    and ['D'] for every cell. *)
Theorem select_start_saves_cleared joy m :
  wired m -> tick_defined joy m = true -> running m = false ->
  newly_pressed (sample joy m) BtnSelect = true ->
  newly_pressed (sample joy m) BtnStart = true ->
  newly_pressed (sample joy m) BtnB = false ->
  let ram := sram (loop_body joy m).1 in
  ram 0%nat = "s"%byte /\
  forall k, (k < CELLS)%nat -> ram (1 + k)%nat = "D"%byte.
Proof.
  intros (_ & Hlen & _) _ Hr Hs Hst Hb ram. subst ram.
  rewrite loop_body_result. cbv zeta.
  change (running (sample joy m)) with (running m). rewrite Hr, Hb.
  change (cell_states m) with (cell_states (sample joy m)) in Hlen.
  set (m1 := sample joy m) in *. clearbody m1.
  assert (Hsaved : sram (save (clear m1)) 0%nat = "s"%byte /\
                   forall k, (k < CELLS)%nat ->
                     sram (save (clear m1)) (1 + k)%nat = "D"%byte).
  { destruct (save_spec (clear m1)) as (Hmark & Hbytes & _).
    split; [exact Hmark|]. intros k Hk.
    change (1 + k)%nat with (SAVED_STATES + k)%nat. rewrite (Hbytes k Hk).
    rewrite (clear_spec m1 Hlen).
    change (cell_states (set_cell_states m1 (replicate CELLS false)))
      with (replicate CELLS false).
    rewrite lookup_total_replicate_2 by exact Hk. reflexivity. }
  paused_cases; fields; exact Hsaved.
Qed.

Lemma select_start_saves_cleared_witness :
  let ram := sram (loop_body (J_SELECT + J_START + J_A) glider_machine).1 in
  ram 0%nat = "s"%byte /\
  forall k, (k < CELLS)%nat -> ram (1 + k)%nat = "D"%byte.
Proof.
  apply (select_start_saves_cleared (J_SELECT + J_START + J_A) glider_machine);
    [ exact glider_machine_wired | vm_compute; reflexivity
    | reflexivity | reflexivity | reflexivity | reflexivity ].
Defined.

Lemma toggle_cell_states m :
  cell_states (toggle m)
  = <[state (world m !!! at2 (cx (cursor m)) (cy (cursor m)))
      := negb (cell_states m
               !!! state (world m !!! at2 (cx (cursor m)) (cy (cursor m))))]>
      (cell_states m).
Proof. reflexivity. Qed.

(** On an initialised machine with the cursor on the grid, the cell the A
    block reaches through [world] is the one under the cursor. *)
Lemma toggle_wired m :
  wired m -> on_grid (cursor m) ->
  cell_states (toggle m)
  = <[at2 (cx (cursor m)) (cy (cursor m))
      := negb (cell_states m !!! at2 (cx (cursor m)) (cy (cursor m)))]>
      (cell_states m).
Proof.
  intros (Hw & _) [Hx Hy]. rewrite toggle_cell_states, Hw.
  rewrite torus_world_lookup_total by (apply at2_bound; assumption).
  reflexivity.
Qed.

(** X14.  A flips the cell under the cursor and no other: after an
    iteration of a paused, initialised machine with the cursor on the grid
    in which A is newly pressed, and neither B nor SELECT is, the cell at
    the position the cursor had when the iteration began is inverted and
    every other cell is as before, also when direction buttons are pressed
    in the same iteration. *)
Theorem a_toggles_cursor_cell joy m :
  running m = false -> wired m -> on_grid (cursor m) ->
  newly_pressed (sample joy m) BtnA = true ->
  newly_pressed (sample joy m) BtnB = false ->
  newly_pressed (sample joy m) BtnSelect = false ->
  let k := at2 (cx (cursor m)) (cy (cursor m)) in
  cell_states (loop_body joy m).1 = <[k := negb (cell_states m !!! k)]> (cell_states m) /\
  cell_states (loop_body joy m).1 !! k = Some (negb (cell_states m !!! k)) /\
  forall i, i <> k -> cell_states (loop_body joy m).1 !! i = cell_states m !! i.
Proof.
  intros Hr Hwired Hgrid Ha Hb Hs k.
  assert (Hk : (k < length (cell_states m))%nat).
  { destruct Hwired as (_ & -> & _), Hgrid. apply at2_bound; assumption. }
  assert (E : cell_states (loop_body joy m).1
              = <[k := negb (cell_states m !!! k)]> (cell_states m)).
  { subst k. rewrite loop_body_result. cbv zeta.
    change (running (sample joy m)) with (running m). rewrite Hr, Hb.
    change (cell_states m) with (cell_states (sample joy m)).
    change (cursor m) with (cursor (sample joy m)) in Hgrid |- *.
    assert (Hwired1 : wired (sample joy m)) by exact Hwired.
    set (m1 := sample joy m) in *. clearbody m1.
    assert (Hsave : wired (save m1)).
    { unfold wired. rewrite save_world, save_cell_states, save_neighbor_counts.
      exact Hwired1. }
    paused_cases; fields;
      first [ rewrite (toggle_wired m1 Hwired1 Hgrid); reflexivity
            | rewrite (toggle_wired (save m1) Hsave)
                by (rewrite save_cursor; exact Hgrid);
              rewrite save_cursor, save_cell_states; reflexivity ]. }
  rewrite E. split; [reflexivity|]. split.
  - apply list_lookup_insert_eq, Hk.
  - intros i Hi. apply list_lookup_insert_ne. congruence.
Qed.

Lemma a_toggles_cursor_cell_witness :
  let k := at2 (cx (cursor glider_machine)) (cy (cursor glider_machine)) in
  cell_states (loop_body (J_A + J_UP) glider_machine).1
  = <[k := negb (cell_states glider_machine !!! k)]> (cell_states glider_machine) /\
  cell_states (loop_body (J_A + J_UP) glider_machine).1 !! k
  = Some (negb (cell_states glider_machine !!! k)) /\
  forall i, i <> k ->
    cell_states (loop_body (J_A + J_UP) glider_machine).1 !! i
    = cell_states glider_machine !! i.
Proof.
  apply (a_toggles_cursor_cell (J_A + J_UP) glider_machine);
    [ reflexivity | exact glider_machine_wired
    | unfold on_grid, WIDTH, HEIGHT; vm_compute; repeat split; discriminate
    | reflexivity | reflexivity | reflexivity ].
Defined.

(** X15.  Toggling the same cell twice restores the grid: on an
    initialised machine with the cursor on the grid the A action is its own
    inverse on [cell_states]. *)
Theorem toggle_twice m :
  wired m -> on_grid (cursor m) ->
  cell_states (toggle (toggle m)) = cell_states m.
Proof.
  intros Hwired Hgrid.
  assert (Hk : (at2 (cx (cursor m)) (cy (cursor m)) < length (cell_states m))%nat).
  { destruct Hwired as (_ & -> & _), Hgrid. apply at2_bound; assumption. }
  assert (Hwired' : wired (toggle m)).
  { destruct Hwired as (Hw & Hl & Hn). unfold wired.
    rewrite toggle_world, toggle_neighbor_counts, toggle_cell_states, length_insert.
    auto. }
  rewrite (toggle_wired (toggle m) Hwired') by (rewrite toggle_cursor; exact Hgrid).
  rewrite toggle_cursor, (toggle_wired m Hwired Hgrid).
  rewrite list_lookup_total_insert_eq by exact Hk.
  rewrite list_insert_insert_eq, negb_involutive.
  apply list_insert_id, list_lookup_lookup_total_lt, Hk.
Qed.

Lemma toggle_twice_witness :
  cell_states (toggle (toggle glider_machine)) = cell_states glider_machine.
Proof.
  apply (toggle_twice glider_machine); [exact glider_machine_wired|].
  unfold on_grid, WIDTH, HEIGHT; vm_compute; repeat split; discriminate.
Defined.

(** ** Invariants of the main loop *)

Lemma wired_fields m m' :
  world m' = world m -> cell_states m' = cell_states m ->
  neighbor_counts m' = neighbor_counts m -> wired m -> wired m'.
Proof. unfold wired. intros -> -> ->. auto. Qed.

Lemma step_if_keeps (I : Machine -> Prop) c f m :
  (forall m1, I m1 -> I (f m1)) -> I m -> I (step_if c f m).
Proof. intros Hf Hm. unfold step_if. destruct c; auto. Qed.

(** X16.  An iteration that starts on an initialised machine with the
    cursor on the grid ends on an initialised machine: the cell graph is
    never rewired, the arrays keep their sizes, and each cursor coordinate
    ends on the grid or at 255. *)
Theorem loop_body_keeps_wired joy m :
  wired m -> on_grid (cursor m) ->
  let m' := (loop_body joy m).1 in
  wired m' /\ world m' = world m /\ near_grid (cursor m').
Proof.
  intros Hwired Hgrid m'. subst m'.
  assert (Hnear : near_grid (cursor m)).
  { destruct Hgrid. split; left; assumption. }
  set (I := fun m1 : Machine =>
    wired m1 /\ world m1 = world m /\ near_grid (cursor m1)).
  assert (Hclear : forall m1, I m1 -> I (clear m1)).
  { intros m1 (Hw & Hwd & Hc). unfold I.
    rewrite (clear_spec m1) by apply Hw. unfold wired.
    cbn [world cell_states neighbor_counts cursor set_cell_states].
    rewrite length_replicate. destruct Hw as (? & ? & ?). auto. }
  assert (Hsave : forall m1, I m1 -> I (save m1)).
  { intros m1 (Hw & Hwd & Hc). unfold I. rewrite save_cursor, save_world.
    split; [|auto].
    apply (wired_fields m1); [apply save_world|apply save_cell_states
                              |apply save_neighbor_counts|exact Hw]. }
  assert (Htoggle : forall m1, I m1 -> I (toggle m1)).
  { intros m1 ((Hw & Hl & Hn) & Hwd & Hc). unfold I, wired.
    rewrite toggle_world, toggle_neighbor_counts, toggle_cursor, toggle_cell_states,
      length_insert. auto. }
  assert (Hmove : forall dx dy, -1 <= dx <= 1 -> -1 <= dy <= 1 ->
                  forall m1, I m1 -> I (move dx dy m1)).
  { intros dx dy Hdx Hdy m1 (Hw & Hwd & Hc). unfold I.
    rewrite move_world, move_cursor_field. split; [exact Hw|]. split; [exact Hwd|].
    apply (move_cursor_near_grid (cursor m1) dx dy Hc Hdx Hdy). }
  change (I (loop_body joy m).1). rewrite loop_body_result. cbv zeta.
  assert (H1 : I (sample joy m)) by (unfold I; auto).
  set (m1 := sample joy m) in *. clearbody m1.
  destruct (newly_pressed m1 BtnB); [exact H1|].
  destruct (running m1).
  - destruct H1 as (Hw & Hwd & Hc). unfold I.
    destruct (generation_spec m1 Hw) as (Hw' & _).
    destruct (generation_frame m1) as (Ew & Ec & _).
    rewrite Ew, Ec. auto.
  - unfold paused_result. cbv zeta.
    repeat (apply step_if_keeps; [first [ exact Hclear | exact Hsave | exact Htoggle
                                        | apply Hmove; lia ] |]).
    exact H1.
Qed.

Lemma glider_machine_on_grid : on_grid (cursor glider_machine).
Proof. unfold on_grid, WIDTH, HEIGHT; vm_compute; repeat split; discriminate. Qed.

Lemma loop_body_keeps_wired_witness :
  let m' := (loop_body (J_UP + J_A + J_START) glider_machine).1 in
  wired m' /\ world m' = world glider_machine /\ near_grid (cursor m').
Proof.
  apply (loop_body_keeps_wired (J_UP + J_A + J_START) glider_machine);
    [exact glider_machine_wired | exact glider_machine_on_grid].
Defined.

(** X17.  Every defined iteration of an initialised machine shifts the
    joypad registers, flips the mode exactly when B is newly pressed, and
    performs at most one generation pass: exactly one when the machine was
    running and B is not newly pressed, none otherwise. *)
Theorem tick_mode_and_generations joy m :
  wired m -> tick_defined joy m = true ->
  let r := loop_body joy m in
  let b_edge := held BtnB joy && negb (held BtnB (joypadCurr m)) in
  joypadPrev r.1 = joypadCurr m /\ joypadCurr r.1 = joy /\
  running r.1 = xorb (running m) b_edge /\
  generations r.2 = (if running m && negb b_edge then 1%nat else 0%nat) /\
  (generations r.2 <= 1)%nat.
Proof.
  intros _ _ r b_edge. subst r b_edge.
  destruct (loop_body_spec joy m) as (Hc & Hp & Hr & _ & Hg). cbv zeta in Hr, Hg.
  rewrite newly_pressed_sample in Hr, Hg.
  split; [exact Hp|]. split; [exact Hc|]. rewrite Hr, Hg.
  destruct (running m), (held BtnB joy && negb (held BtnB (joypadCurr m)));
    cbn; repeat split; lia.
Qed.

Lemma tick_mode_and_generations_witness :
  let r := loop_body (J_A + J_LEFT) glider_machine in
  let b_edge := held BtnB (J_A + J_LEFT)
                && negb (held BtnB (joypadCurr glider_machine)) in
  joypadPrev r.1 = joypadCurr glider_machine /\ joypadCurr r.1 = J_A + J_LEFT /\
  running r.1 = xorb (running glider_machine) b_edge /\
  generations r.2
  = (if running glider_machine && negb b_edge then 1%nat else 0%nat) /\
  (generations r.2 <= 1)%nat.
Proof.
  apply (tick_mode_and_generations (J_A + J_LEFT) glider_machine);
    [exact glider_machine_wired | vm_compute; reflexivity].
Defined.

(** X18.  A running machine reads only B: two joypad values that agree on
    B lead, from the same initialised running machine, to the same cells,
    cursor, mode, cartridge RAM and log. *)
Theorem running_reads_only_b joy joy' m :
  running m = true -> wired m -> held BtnB joy = held BtnB joy' ->
  let r := loop_body joy m in
  let r' := loop_body joy' m in
  cell_states r.1 = cell_states r'.1 /\ cursor r.1 = cursor r'.1 /\
  running r.1 = running r'.1 /\ sram r.1 = sram r'.1 /\ r.2 = r'.2.
Proof.
  intros Hr Hwired Hb r r'. subst r r'. unfold loop_body.
  change (running (sample joy m)) with (running m).
  change (running (sample joy' m)) with (running m). rewrite Hr. cbn [negb].
  rewrite !newly_pressed_sample, Hb.
  destruct (held BtnB joy' && negb (held BtnB (joypadCurr m))); cbn [fst snd].
  - repeat split.
  - assert (Hw : wired (sample joy m)) by exact Hwired.
    assert (Hw' : wired (sample joy' m)) by exact Hwired.
    destruct (generation_spec _ Hw) as (_ & _ & Hs).
    destruct (generation_spec _ Hw') as (_ & _ & Hs').
    destruct (generation_frame (sample joy m)) as (_ & Ec & Er & _ & _ & Es).
    destruct (generation_frame (sample joy' m)) as (_ & Ec' & Er' & _ & _ & Es').
    rewrite Hs, Hs', Ec, Ec', Er, Er', Es, Es'. repeat split.
Qed.

Lemma running_reads_only_b_witness :
  let r := loop_body (J_A + J_SELECT + J_START + J_LEFT) running_machine in
  let r' := loop_body 0 running_machine in
  cell_states r.1 = cell_states r'.1 /\ cursor r.1 = cursor r'.1 /\
  running r.1 = running r'.1 /\ sram r.1 = sram r'.1 /\ r.2 = r'.2.
Proof.
  apply (running_reads_only_b (J_A + J_SELECT + J_START + J_LEFT) 0 running_machine);
    [ exact running_machine_running
    | exact running_machine_wired
    | reflexivity ].
Defined.

(** X19.  A running, initialised machine on which B is never down performs
    one generation pass per iteration: after [N] iterations it is still
    running, has logged [N] generation passes and nothing else, and its
    cells are the [N]-fold simultaneous update of the cells it started
    with, whatever the other buttons do. *)
Theorem run_generations joys : forall m,
  wired m -> running m = true ->
  Forall (fun joy => held BtnB joy = false) joys ->
  let r := run joys m in
  wired r.1 /\ running r.1 = true /\
  r.2 = replicate (length joys) Generation /\
  cell_states r.1 = Nat.iter (length joys) simultaneous_step (cell_states m).
Proof.
  induction joys as [|joy joys IH]; intros m Hwired Hrun Hall.
  - cbn. auto.
  - inversion Hall as [|? ? Hjoy Hall']; subst.
    assert (Hstep : loop_body joy m = (generation (sample joy m), [Generation])).
    { unfold loop_body. change (running (sample joy m)) with (running m).
      rewrite Hrun, newly_pressed_sample, Hjoy. reflexivity. }
    assert (Hw1 : wired (sample joy m)) by exact Hwired.
    destruct (generation_spec _ Hw1) as (Hw2 & _ & Hcs).
    destruct (generation_frame (sample joy m)) as (_ & _ & Er & _).
    specialize (IH (generation (sample joy m)) Hw2 ltac:(rewrite Er; exact Hrun) Hall').
    cbv zeta in IH |- *. cbn [run]. rewrite Hstep.
    destruct (run joys (generation (sample joy m))) as [m2 t2]. cbn [fst snd] in IH |- *.
    destruct IH as (I1 & I2 & I3 & I4).
    split; [exact I1|]. split; [exact I2|]. split.
    + rewrite I3. reflexivity.
    + rewrite I4, Hcs. cbn [length]. rewrite Nat.iter_succ_r. reflexivity.
Qed.

Lemma run_generations_witness :
  let r := run [J_A; J_START + J_UP; 0; J_SELECT] running_machine in
  wired r.1 /\ running r.1 = true /\
  r.2 = replicate 4 Generation /\
  cell_states r.1 = Nat.iter 4 simultaneous_step (cell_states running_machine).
Proof.
  apply (run_generations [J_A; J_START + J_UP; 0; J_SELECT] running_machine);
    [ exact running_machine_wired
    | exact running_machine_running
    | repeat constructor ].
Defined.

(** ** Patterns *)

(** Repeated generation passes are repeated simultaneous updates. *)
Lemma iter_generation n : forall m,
  wired m ->
  wired (Nat.iter n generation m) /\
  cell_states (Nat.iter n generation m)
  = Nat.iter n simultaneous_step (cell_states m).
Proof.
  induction n as [|n IH]; intros m Hwired; [split; [exact Hwired|reflexivity]|].
  rewrite !Nat.iter_succ. destruct (IH m Hwired) as [Hw Hcs].
  destruct (generation_spec _ Hw) as (Hw' & _ & Hstep).
  split; [exact Hw'|]. rewrite Hstep, Hcs. reflexivity.
Qed.

Lemma simultaneous_step_length cs : length (simultaneous_step cs) = CELLS.
Proof. unfold simultaneous_step. rewrite length_fmap. apply length_seq. Qed.

Lemma simultaneous_step_lookup cs x y :
  0 <= x < WIDTH -> 0 <= y < HEIGHT ->
  simultaneous_step cs !! at2 x y
  = Some (life_rule (cs !!! at2 x y) (live_neighbors cs x y)).
Proof.
  intros Hx Hy. unfold simultaneous_step.
  rewrite list_lookup_fmap, lookup_seq_lt by (apply at2_bound; assumption).
  cbn [fmap option_fmap option_map Nat.add].
  destruct (coords_at2 x y Hx Hy) as [-> ->]. reflexivity.
Qed.

Lemma translate_length a b cs : length (translate a b cs) = CELLS.
Proof. unfold translate. rewrite length_fmap. apply length_seq. Qed.

Lemma translate_lookup a b cs x y :
  0 <= x < WIDTH -> 0 <= y < HEIGHT ->
  translate a b cs !! at2 x y
  = Some (cs !!! at2 ((x - a) mod WIDTH) ((y - b) mod HEIGHT)).
Proof.
  intros Hx Hy. unfold translate.
  rewrite list_lookup_fmap, lookup_seq_lt by (apply at2_bound; assumption).
  cbn [fmap option_fmap option_map Nat.add].
  destruct (coords_at2 x y Hx Hy) as [-> ->]. reflexivity.
Qed.

Lemma filter_length_map_ext {A : Type} (P Q : nat -> Prop)
    `{!forall k, Decision (P k)} `{!forall k, Decision (Q k)} (f g : A -> nat) l :
  (forall d, P (f d) <-> Q (g d)) ->
  length (filter P (map f l)) = length (filter Q (map g l)).
Proof.
  intros Hext. induction l as [|d l IH]; [reflexivity|].
  cbn [map]. rewrite !filter_cons.
  destruct (decide (P (f d))) as [Hp|Hp], (decide (Q (g d))) as [Hq|Hq];
    cbn [length]; try rewrite IH; try reflexivity; exfalso.
  - apply Hq, Hext, Hp.
  - apply Hp, Hext, Hq.
Qed.

Lemma wrap_shift dim v d a :
  ((v + d) mod dim - a) mod dim = ((v - a) mod dim + d) mod dim.
Proof.
  rewrite Zminus_mod_idemp_l, Zplus_mod_idemp_l. f_equal. lia.
Qed.

Lemma live_neighbors_translate a b cs x y :
  length cs = CELLS -> 0 <= x < WIDTH -> 0 <= y < HEIGHT ->
  live_neighbors (translate a b cs) x y
  = live_neighbors cs ((x - a) mod WIDTH) ((y - b) mod HEIGHT).
Proof.
  intros Hlen Hx Hy. unfold live_neighbors, torus_neighbors. f_equal.
  apply filter_length_map_ext. intros [dx dy]. cbn [fst snd].
  rewrite translate_lookup by (apply Z.mod_pos_bound; reflexivity).
  rewrite !wrap_shift.
  rewrite (list_lookup_lookup_total_lt cs); [reflexivity|].
  rewrite Hlen. apply at2_bound; apply Z.mod_pos_bound; reflexivity.
Qed.

(** The simultaneous update commutes with translations of the torus. *)
Lemma simultaneous_step_translate a b cs :
  length cs = CELLS ->
  simultaneous_step (translate a b cs) = translate a b (simultaneous_step cs).
Proof.
  intros Hlen. apply list_eq. intros k.
  destruct (decide (k < CELLS)%nat) as [Hk|Hk].
  - destruct (at2_coords k Hk) as (Hx & Hy & Ek).
    set (x := Z.of_nat k / HEIGHT) in *. set (y := Z.of_nat k mod HEIGHT) in *.
    rewrite <- Ek.
    rewrite simultaneous_step_lookup, translate_lookup by assumption.
    rewrite (list_lookup_total_correct _ _ _ (translate_lookup a b cs x y Hx Hy)).
    rewrite live_neighbors_translate by assumption.
    rewrite (list_lookup_total_correct _ _ _
               (simultaneous_step_lookup cs _ _
                  (Z.mod_pos_bound (x - a) WIDTH eq_refl)
                  (Z.mod_pos_bound (y - b) HEIGHT eq_refl))).
    reflexivity.
  - rewrite !(proj2 (lookup_ge_None _ _)); [reflexivity| |].
    + rewrite translate_length. lia.
    + rewrite simultaneous_step_length. lia.
Qed.

Lemma iter_step_translate n a b cs :
  length cs = CELLS ->
  Nat.iter n simultaneous_step (translate a b cs)
  = translate a b (Nat.iter n simultaneous_step cs).
Proof.
  intros Hlen. induction n as [|n IH]; [reflexivity|].
  rewrite !Nat.iter_succ, IH. apply simultaneous_step_translate.
  destruct n; [exact Hlen|]. rewrite Nat.iter_succ. apply simultaneous_step_length.
Qed.

(** X20.  The generation pass commutes with translations of the torus: if
    one initialised machine holds the generation of another moved by
    [(a, b)], wrapping at the edges, then after a generation pass on each
    it still does.  No position of the grid is special, the edges
    included. *)
Theorem generation_translate a b m m' :
  wired m -> wired m' ->
  cell_states m' = translate a b (cell_states m) ->
  cell_states (generation m') = translate a b (cell_states (generation m)).
Proof.
  intros Hw Hw' Hcs.
  destruct (generation_spec m Hw) as (_ & _ & ->).
  destruct (generation_spec m' Hw') as (_ & _ & ->).
  rewrite Hcs. apply simultaneous_step_translate. apply Hw.
Qed.

Lemma generation_translate_witness :
  cell_states (generation (set_cell_states fresh_machine
                             (translate 17 15 (cell_states glider_machine))))
  = translate 17 15 (cell_states (generation glider_machine)).
Proof.
  apply (generation_translate 17 15 glider_machine
           (set_cell_states fresh_machine (translate 17 15 (cell_states glider_machine))));
    [ exact glider_machine_wired
    | apply fresh_machine_drawn, translate_length
    | reflexivity ].
Defined.

Lemma cell_of_bound p : (cell_of p < CELLS)%nat.
Proof. apply at2_bound; apply Z.mod_pos_bound; reflexivity. Qed.

Lemma torus_pattern_cons p cells :
  torus_pattern (p :: cells) = <[cell_of p := true]> (torus_pattern cells).
Proof. reflexivity. Qed.

Lemma torus_pattern_length cells : length (torus_pattern cells) = CELLS.
Proof.
  induction cells as [|p cells IH]; [apply length_replicate|].
  rewrite torus_pattern_cons, length_insert. exact IH.
Qed.

(** A cell of a drawn pattern is live exactly when one of the listed
    coordinates names it. *)
Lemma torus_pattern_lookup cells k :
  (k < CELLS)%nat ->
  torus_pattern cells !! k = Some (bool_decide (k ∈ cell_of <$> cells)).
Proof.
  intros Hk. induction cells as [|p cells IH].
  - unfold torus_pattern. cbn [foldr]. rewrite lookup_replicate_2 by exact Hk.
    rewrite bool_decide_eq_false_2; [reflexivity|]. apply not_elem_of_nil.
  - rewrite torus_pattern_cons, list_lookup_insert, torus_pattern_length.
    rewrite fmap_cons. destruct (decide (cell_of p = k /\ (cell_of p < CELLS)%nat)) as [[E _]|N].
    + rewrite bool_decide_eq_true_2; [reflexivity|]. rewrite E. apply list_elem_of_here.
    + rewrite IH. f_equal. apply bool_decide_ext. rewrite elem_of_cons.
      split; [auto|]. intros [E|H]; [|exact H].
      exfalso. apply N. split; [congruence|apply cell_of_bound].
Qed.

Lemma at2_inj x y x' y' :
  0 <= x < WIDTH -> 0 <= y < HEIGHT -> 0 <= x' < WIDTH -> 0 <= y' < HEIGHT ->
  at2 x y = at2 x' y' -> x = x' /\ y = y'.
Proof. unfold at2, WIDTH, HEIGHT. lia. Qed.

Lemma mod_shift_iff dim v a x :
  0 < dim -> 0 <= x < dim ->
  (v mod dim = (x - a) mod dim <-> (v + a) mod dim = x).
Proof.
  intros Hdim Hx. split; intros H.
  - rewrite <- Zplus_mod_idemp_l, H, Zplus_mod_idemp_l.
    replace (x - a + a) with x by lia. apply Z.mod_small, Hx.
  - rewrite <- H, Zminus_mod_idemp_l. f_equal. lia.
Qed.

(** Translating a drawn pattern is drawing the translated coordinates. *)
Lemma translate_pattern a b cells :
  translate a b (torus_pattern cells)
  = torus_pattern (map (fun p : Z * Z => (fst p + a, snd p + b)) cells).
Proof.
  apply list_eq. intros k. destruct (decide (k < CELLS)%nat) as [Hk|Hk].
  - destruct (at2_coords k Hk) as (Hx & Hy & Ek).
    set (x := Z.of_nat k / HEIGHT) in *. set (y := Z.of_nat k mod HEIGHT) in *.
    rewrite torus_pattern_lookup by exact Hk.
    rewrite <- Ek at 1. rewrite translate_lookup by assumption.
    pose proof (Z.mod_pos_bound (x - a) WIDTH eq_refl) as Hx'.
    pose proof (Z.mod_pos_bound (y - b) HEIGHT eq_refl) as Hy'.
    rewrite (list_lookup_total_correct _ _ _
               (torus_pattern_lookup cells _ (at2_bound _ _ Hx' Hy'))).
    f_equal. apply bool_decide_ext.
    rewrite !list_elem_of_fmap. split.
    + intros ([px py] & E & Hin).
      exists (px + a, py + b). split; [|apply list_elem_of_In, in_map_iff;
        exists (px, py); split; [reflexivity|apply list_elem_of_In, Hin]].
      unfold cell_of in E |- *. cbn [fst snd] in E |- *.
      apply at2_inj in E as [E1 E2]; try assumption;
        try (apply Z.mod_pos_bound; reflexivity).
      symmetry in E1, E2.
      apply (mod_shift_iff WIDTH px a x eq_refl Hx) in E1.
      apply (mod_shift_iff HEIGHT py b y eq_refl Hy) in E2.
      rewrite E1, E2. symmetry. exact Ek.
    + intros ([qx qy] & E & Hin).
      apply list_elem_of_In, in_map_iff in Hin as ([px py] & Epq & Hin).
      cbn [fst snd] in Epq. injection Epq as <- <-.
      exists (px, py). split; [|apply list_elem_of_In, Hin].
      unfold cell_of in E |- *. cbn [fst snd] in E |- *.
      rewrite <- Ek in E.
      apply at2_inj in E as [E1 E2]; try assumption;
        try (apply Z.mod_pos_bound; reflexivity).
      symmetry in E1, E2.
      apply (mod_shift_iff WIDTH px a x eq_refl Hx) in E1.
      apply (mod_shift_iff HEIGHT py b y eq_refl Hy) in E2.
      rewrite E1, E2. reflexivity.
  - rewrite !(proj2 (lookup_ge_None _ _)); [reflexivity| |].
    + rewrite torus_pattern_length. lia.
    + rewrite translate_length. lia.
Qed.

Lemma block_translate x y : block x y = translate x y (block 0 0).
Proof.
  unfold block. rewrite translate_pattern. cbn [map fst snd].
  repeat (f_equal; try lia).
Qed.

Lemma glider_translate x y :
  torus_glider (x + 1) (y + 1) = translate x y (torus_glider 1 1) /\
  torus_glider x y = translate x y (torus_glider 0 0).
Proof.
  unfold torus_glider. rewrite !translate_pattern. cbn [map fst snd].
  split; repeat (f_equal; try lia).
Qed.

Lemma block_origin_still : simultaneous_step (block 0 0) = block 0 0.
Proof. vm_compute. reflexivity. Qed.

Lemma glider_origin_travels :
  Nat.iter 4 simultaneous_step (torus_glider 0 0) = torus_glider 1 1.
Proof. vm_compute. reflexivity. Qed.

(** X21.  The 2x2 block is a still life of the program at every position
    of the torus, also where it straddles the edges: any number of
    generation passes leaves it as it is. *)
Theorem block_is_still_life m x y n :
  wired m -> cell_states m = block x y ->
  cell_states (Nat.iter n generation m) = block x y.
Proof.
  intros Hwired Hm.
  destruct (iter_generation n m Hwired) as [_ ->]. rewrite Hm.
  rewrite block_translate.
  rewrite iter_step_translate by apply torus_pattern_length.
  assert (E : Nat.iter n simultaneous_step (block 0 0) = block 0 0).
  { induction n as [|n IH]; [reflexivity|].
    rewrite Nat.iter_succ, IH. exact block_origin_still. }
  rewrite E. reflexivity.
Qed.

Lemma block_is_still_life_witness :
  cell_states (Nat.iter 3 generation (set_cell_states fresh_machine (block 19 17)))
  = block 19 17.
Proof.
  apply (block_is_still_life (set_cell_states fresh_machine (block 19 17)) 19 17 3);
    [apply fresh_machine_drawn, torus_pattern_length | reflexivity].
Defined.

(** X22.  The glider travels: four generation passes move it one cell
    down and one cell to the right, from every position of the torus and
    across its edges. *)
Theorem glider_travels m x y :
  wired m -> cell_states m = torus_glider x y ->
  cell_states (Nat.iter 4 generation m) = torus_glider (x + 1) (y + 1).
Proof.
  intros Hwired Hm.
  destruct (iter_generation 4 m Hwired) as [_ ->]. rewrite Hm.
  destruct (glider_translate x y) as [-> ->].
  rewrite iter_step_translate by apply torus_pattern_length.
  rewrite glider_origin_travels. reflexivity.
Qed.

Lemma glider_travels_witness :
  cell_states (Nat.iter 4 generation (set_cell_states fresh_machine (torus_glider 18 16)))
  = torus_glider (18 + 1) (16 + 1).
Proof.
  apply (glider_travels (set_cell_states fresh_machine (torus_glider 18 16)) 18 16);
    [apply fresh_machine_drawn, torus_pattern_length | reflexivity].
Defined.

(** ** Defined runs *)

Lemma on_gridb_spec c : on_gridb c = true <-> on_grid c.
Proof.
  unfold on_gridb, on_grid. rewrite !andb_true_iff, !Z.leb_le, !Z.ltb_lt. tauto.
Qed.

(** A defined pass that reaches the A block has the cursor on the grid. *)
Lemma tick_defined_on_grid joy m :
  tick_defined joy m = true -> toggle_runs joy m = true -> on_grid (cursor m).
Proof.
  unfold tick_defined. intros H Ht. rewrite Ht in H. apply on_gridb_spec, H.
Qed.

(** Every pass of a defined run from an initialised machine starts on an
    initialised machine, so each A block it reaches indexes [world] and
    [cell_states] in bounds. *)
Lemma defined_tick_keeps_wired joy m :
  wired m -> tick_defined joy m = true -> wired (loop_body joy m).1.
Proof.
  intros Hwired Hdef. rewrite loop_body_result. cbv zeta.
  assert (H1 : wired (sample joy m)) by exact Hwired.
  set (m1 := sample joy m) in *. clearbody m1.
  destruct (newly_pressed m1 BtnB); [exact H1|].
  destruct (running m1); [apply (generation_spec m1 H1)|].
  assert (Hmove : forall dx dy m2, wired m2 -> wired (move dx dy m2)).
  { intros dx dy m2 Hw. apply (wired_fields m2);
      [apply move_world | apply move_cell_states | apply move_neighbor_counts | exact Hw]. }
  assert (Htoggle : forall m2, wired m2 -> wired (toggle m2)).
  { intros m2 (Hw & Hl & Hn). unfold wired.
    rewrite toggle_world, toggle_neighbor_counts, toggle_cell_states, length_insert.
    auto. }
  assert (Hsave : forall m2, wired m2 -> wired (save m2)).
  { intros m2 Hw. apply (wired_fields m2);
      [apply save_world | apply save_cell_states | apply save_neighbor_counts | exact Hw]. }
  assert (Hclear : forall m2, wired m2 -> wired (clear m2)).
  { intros m2 Hw. rewrite (clear_spec m2) by apply Hw. unfold wired in Hw |- *.
    cbn [world cell_states neighbor_counts set_cell_states].
    rewrite length_replicate. destruct Hw as (? & ? & ?). auto. }
  unfold paused_result. cbv zeta.
  do 4 (apply step_if_keeps; [apply Hmove|]).
  apply step_if_keeps; [exact Htoggle|].
  apply step_if_keeps; [exact Hsave|].
  apply step_if_keeps; [exact Hclear|].
  exact H1.
Qed.

Lemma defined_run_keeps_wired joys : forall m,
  wired m -> run_defined joys m = true -> wired (run joys m).1.
Proof.
  induction joys as [|joy joys IH]; intros m Hwired Hdef; [exact Hwired|].
  cbn [run_defined] in Hdef. apply andb_true_iff in Hdef as [Hd Hrest].
  pose proof (defined_tick_keeps_wired joy m Hwired Hd) as Hw1.
  specialize (IH _ Hw1 Hrest). cbn [run].
  destruct (loop_body joy m) as [m1 t1]. cbn [fst] in IH.
  destruct (run joys m1) as [m2 t2]. exact IH.
Qed.
